(** * The streaming batch reader of [RecommenderSystems/pnn/pnn_train_eval.py]

    A shallow embedding of [PNNDataReader] (its constructor and the generator
    [get_batches]) and of [make_criteo_dataloader], followed by the properties
    of the batch stitcher.

    Conventions of the embedding:
    - Python integers are [Z]; [//] is [Z.div] (both round towards minus
      infinity) and raises [ZeroDivisionError] on a zero divisor.
    - A one-dimensional numpy array is the list of its elements, of an
      arbitrary element type [A] (dtype promotion is not modelled); a
      two-dimensional array carries its shape and the list of its rows.
    - A row group, once turned into a dict by [_asdict()], is a finite map
      from column names to one-dimensional arrays.
    - Exceptions are values of [exn]; a generator is the list of the events it
      produces together with the way it stops. *)

From stdpp Require Import gmap strings list fin_maps pretty.
From Stdlib Require Import ZArith Lia.

Open Scope string_scope.

(** ** Exceptions *)

Inductive exn : Type :=
  | KeyError (key : string)
  | IndexError
  | ValueError (msg : string)
  | ZeroDivisionError.

Definition result (X : Type) : Type := exn + X.

Definition result_bind {X Y : Type} (f : X → result Y) (m : result X) : result Y :=
  match m with
  | inl e => inl e
  | inr x => f x
  end.

#[global] Instance result_mret : MRet result := λ X x, inr x.
#[global] Instance result_mbind : MBind result := λ X Y f m, result_bind f m.

(** [for x in xs: ... f(x) ...] collecting the results, stopping at the first
    exception. *)
Fixpoint result_mapM {X Y : Type} (f : X → result Y) (xs : list X) : result (list Y) :=
  match xs with
  | [] => inr []
  | x :: xs' =>
      match f x with
      | inl e => inl e
      | inr y =>
          match result_mapM f xs' with
          | inl e => inl e
          | inr ys => inr (y :: ys)
          end
      end
  end.

(** ** Python sequences *)

(** [len(l)] *)
Definition len {X : Type} (l : list X) : Z := Z.of_nat (length l).

(** [l[i]] for a non-negative constant or loop index [i]. *)
Definition index {X : Type} (l : list X) (i : nat) : result X :=
  match l !! i with
  | Some x => inr x
  | None => inl IndexError
  end.

(** How Python clamps one bound of a slice of a sequence of length [n]. *)
Definition slice_index (n i : Z) : Z :=
  if decide (i < 0)%Z then Z.max (i + n) 0 else Z.min i n.

(** [l[start:stop]] *)
Definition slice {X : Type} (l : list X) (start stop : Z) : list X :=
  let lo := slice_index (len l) start in
  let hi := slice_index (len l) stop in
  take (Z.to_nat (hi - lo)) (drop (Z.to_nat lo) l).

(** [l[start:]] *)
Definition slice_from {X : Type} (l : list X) (start : Z) : list X :=
  drop (Z.to_nat (slice_index (len l) start)) l.

(** ** The field schema and the reader object *)

Definition num_dense_fields : nat := 13.
Definition num_sparse_fields : nat := 26.

Record PNNDataReader : Type := {
  parquet_file_url_list : list string;
  batch_size : Z;
  num_epochs : option Z;
  shuffle_row_groups : bool;
  shard_seed : Z;
  shard_count : Z;
  cur_shard : Z;
  fields : list string;
  num_fields : nat
}.

(** [PNNDataReader.__init__] *)
Definition PNNDataReader_init (parquet_file_url_list : list string) (batch_size : Z)
    (num_epochs : option Z) (shuffle_row_groups : bool)
    (shard_seed shard_count cur_shard : Z) : PNNDataReader :=
  let fields := ["Label"] in
  let fields :=
    (fields ++ ((λ i, "I" +:+ pretty (i + 1)%nat) <$> seq 0 num_dense_fields))%list in
  let fields :=
    (fields ++ ((λ i, "C" +:+ pretty (i + 1)%nat) <$> seq 0 num_sparse_fields))%list in
  {| parquet_file_url_list := parquet_file_url_list;
     batch_size := batch_size;
     num_epochs := num_epochs;
     shuffle_row_groups := shuffle_row_groups;
     shard_seed := shard_seed;
     shard_count := shard_count;
     cur_shard := cur_shard;
     fields := fields;
     num_fields := length fields |}.

(** ** make_criteo_dataloader *)

(** What the function reads from its environment: the result of [glob.glob]
    and the world size and rank of the process. *)
Record Env : Type := {
  glob : string → list string;
  get_world_size : Z;
  get_rank : Z
}.

(** [a // b] *)
Definition floordiv (a b : Z) : result Z :=
  if decide (b = 0)%Z then inl ZeroDivisionError else inr (a `div` b)%Z.

(** [files.sort()]: insertion into a list sorted by [String.leb]. *)
Fixpoint sort_insert (s : string) (l : list string) : list string :=
  match l with
  | [] => [s]
  | t :: l' => if String.leb s t then s :: l else t :: sort_insert s l'
  end.

Definition sort (l : list string) : list string := foldr sort_insert [] l.

Definition make_criteo_dataloader (env : Env) (data_path : string) (batch_size : Z)
    (shuffle : bool) : result PNNDataReader :=
  let files := (λ name, "file://" +:+ name) <$> glob env (data_path +:+ "/*.parquet") in
  let files := sort files in
  let world_size := get_world_size env in
  batch_size_per_proc ← floordiv batch_size world_size;
  mret (PNNDataReader_init files batch_size_per_proc None shuffle 1234 world_size
          (get_rank env)).

(** ** Arrays, batches and the generator *)

Section get_batches.
Context {A : Type}.

(** [np.concatenate((a, b))] of two one-dimensional arrays *)
Definition np_concatenate (a b : list A) : list A := (a ++ b)%list.

Record ndarray2 : Type := {
  shape : nat * nat;
  rows : list (list A)
}.

(** [np.stack(arrays, axis=-1)] of one-dimensional arrays: element [i][j] of
    the result is element [i] of [arrays[j]]. *)
Definition np_stack_last (arrays : list (list A)) : result ndarray2 :=
  match arrays with
  | [] => inl (ValueError "need at least one array to stack")
  | a0 :: _ =>
      if decide (Forall (λ a, length a = length a0) arrays)
      then inr {| shape := (length a0, length arrays);
                  rows := (λ i, omap (λ a, a !! i) arrays) <$> seq 0 (length a0) |}
      else inl (ValueError "all input arrays must have the same shape")
  end.

(** What the generator yields: [label, np.stack(features, axis=-1)]. *)
Record batch : Type := Batch {
  label : list A;
  features : ndarray2
}.

(** The events of a run: a suspension at a [yield], and the return to the
    head of the [for] loop to pull the next row group; each records the
    value the local variable [tail] has at that point. *)
Inductive event : Type :=
  | Yield (b : batch) (tail : option (list (list A)))
  | NextRowGroup (tail : option (list (list A))).

Inductive outcome (X : Type) : Type :=
  | Ok (x : X)
  | Raised (e : exn)
  | OutOfFuel.
#[global] Arguments Ok {X} x.
#[global] Arguments Raised {X} e.
#[global] Arguments OutOfFuel {X}.

Definition gen (X : Type) : Type := list event * outcome X.

Definition gen_bind {X Y : Type} (f : X → gen Y) (m : gen X) : gen Y :=
  match m with
  | (evs, Ok x) => let (evs', o) := f x in ((evs ++ evs')%list, o)
  | (evs, Raised e) => (evs, Raised e)
  | (evs, OutOfFuel) => (evs, OutOfFuel)
  end.

#[global] Instance gen_mret : MRet gen := λ X x, ([], Ok x).
#[global] Instance gen_mbind : MBind gen := λ X Y f m, gen_bind f m.

Definition lift {X : Type} (r : result X) : gen X :=
  match r with
  | inl e => ([], Raised e)
  | inr x => ([], Ok x)
  end.

Definition yield (b : batch) (tail : option (list (list A))) : gen unit :=
  ([Yield b tail], Ok ()).

Definition next_row_group (tail : option (list (list A))) : gen unit :=
  ([NextRowGroup tail], Ok ()).

(** [rglist = [rgdict[field] for field in self.fields]] *)
Definition rglist_of (self : PNNDataReader) (rgdict : gmap string (list A))
    : result (list (list A)) :=
  result_mapM (λ field,
    match rgdict !! field with
    | Some column => inr column
    | None => inl (KeyError field)
    end) (fields self).

(** The list comprehension that extends the tail with rows of the current
    row group. *)
Definition extend_tail (self : PNNDataReader) (batch_size : Z)
    (tail rglist : list (list A)) : result (list (list A)) :=
  result_mapM (λ i,
    tail_i ← index tail i;
    rglist_i ← index rglist i;
    mret (np_concatenate tail_i (slice rglist_i 0 (batch_size - len tail_i))))
    (seq 0 (num_fields self)).

(** The [while] loop of the generator; it returns the final [pos]. *)
Fixpoint slicing_loop (fuel : nat) (batch_size : Z) (rglist : list (list A))
    (tail : option (list (list A))) (pos : Z) : gen Z :=
  match fuel with
  | O => ([], OutOfFuel)
  | S fuel' =>
      rglist_0 ← lift (index rglist 0);
      if decide (pos + batch_size ≤ len rglist_0)%Z then
        let label := slice rglist_0 pos (pos + batch_size) in
        let features := slice (slice_from rglist 1) pos (pos + batch_size) in
        let pos := (pos + batch_size)%Z in
        stacked ← lift (np_stack_last features);
        yield (Batch label stacked) tail;;
        slicing_loop fuel' batch_size rglist tail pos
      else mret pos
  end.

(** Enough fuel for the [while] loop started at [pos]: see
    [slicing_loop_fuel]. *)
Definition loop_fuel (rglist : list (list A)) (pos : Z) : nat :=
  S (S (Z.to_nat (len (default [] (rglist !! 0)) - pos))).

(** The body of [for rg in reader]; it returns the value of [tail] with
    which the loop goes on to the next row group. *)
Definition for_body (self : PNNDataReader) (batch_size : Z)
    (tail : option (list (list A))) (rgdict : gmap string (list A))
    : gen (option (list (list A))) :=
  rglist ← lift (rglist_of self rgdict);
  let pos := 0%Z in
  completed ←
    match tail with
    | Some tail =>
        tail_0 ← lift (index tail 0);
        let pos := (batch_size - len tail_0)%Z in
        tail ← lift (extend_tail self batch_size tail rglist);
        tail_0 ← lift (index tail 0);
        if decide (len tail_0 = batch_size) then
          let label := tail_0 in
          let features := slice_from tail 1 in
          let tail := None in
          stacked ← lift (np_stack_last features);
          yield (Batch label stacked) tail;;
          mret (inr (pos, tail))
        else
          (* pos = 0; continue *)
          mret (inl (Some tail))
    | None => mret (inr (pos, None))
    end;
  match completed with
  | inl tail => mret tail
  | inr (pos, tail) =>
      pos ← slicing_loop (loop_fuel rglist pos) batch_size rglist tail pos;
      rglist_0 ← lift (index rglist 0);
      if decide (pos ≠ len rglist_0) then
        tail ← lift (result_mapM (λ i,
                       rglist_i ← index rglist i;
                       mret (slice_from rglist_i pos))
                     (seq 0 (num_fields self)));
        mret (Some tail)
      else mret tail
  end.

(** [for rg in reader: ...] over the row groups the reader delivers. *)
Fixpoint for_loop (self : PNNDataReader) (batch_size : Z)
    (tail : option (list (list A))) (reader : list (gmap string (list A)))
    : gen (option (list (list A))) :=
  match reader with
  | [] => mret tail
  | rg :: reader' =>
      tail ← for_body self batch_size tail rg;
      next_row_group tail;;
      for_loop self batch_size tail reader'
  end.

(** [PNNDataReader.get_batches]. The result holds the events of the run
    and, when the generator is exhausted normally, the tail that is left
    (and dropped). *)
Definition get_batches (self : PNNDataReader)
    (reader : list (gmap string (list A))) (batch_size_arg : option Z)
    : gen (option (list (list A))) :=
  let batch_size :=
    match batch_size_arg with
    | None => batch_size self
    | Some batch_size => batch_size
    end in
  let tail := None in
  for_loop self batch_size tail reader.

(** The batches a run yields, in order. *)
Definition batches {X : Type} (run : gen X) : list batch :=
  omap (λ ev, match ev with Yield b _ => Some b | NextRowGroup _ => None end) run.1.

Definition event_tail (ev : event) : option (list (list A)) :=
  match ev with
  | Yield _ tail => tail
  | NextRowGroup tail => tail
  end.

End get_batches.

Arguments ndarray2 : clear implicits.
Arguments batch : clear implicits.
Arguments event : clear implicits.
Arguments gen : clear implicits.

(** ** Vocabulary of the properties *)

Section vocabulary.
Context {A : Type}.

(** Every event of the run satisfies [P] and, if the run ends normally, its
    result satisfies [Q]. *)
Definition gen_sat {X : Type} (P : event A → Prop) (Q : X → Prop) (m : gen A X) : Prop :=
  Forall P m.1 ∧ ∀ x, m.2 = Ok x → Q x.

(** The run ends within the fuel it was given. *)
Definition terminates {X : Type} (m : gen A X) : Prop := m.2 ≠ OutOfFuel.

(** All the columns have [n] rows. *)
Definition columns_of_length (n : nat) (columns : list (list A)) : Prop :=
  Forall (λ c, length c = n) columns.

(** A row group is well formed for a reader when it has a column for every
    field of the schema and these columns all have the same length. *)
Definition well_formed (self : PNNDataReader) (rgdict : gmap string (list A)) : Prop :=
  ∃ rglist n, rglist_of self rgdict = inr rglist ∧ columns_of_length n rglist.

(** The tail buffer invariant: there is no tail, or its columns have one
    common length, below [batch_size]. *)
Definition tail_inv (batch_size : Z) (tail : option (list (list A))) : Prop :=
  match tail with
  | None => True
  | Some tail => ∃ n, columns_of_length n tail ∧ (Z.of_nat n < batch_size)%Z
  end.

(** What holds at every event of a run: the tail buffer invariant and,
    for a non-negative [batch_size], a label array of [batch_size] elements
    in every batch. *)
Definition event_inv (batch_size : Z) (ev : event A) : Prop :=
  match ev with
  | Yield b tail => tail_inv batch_size tail ∧ ((0 ≤ batch_size)%Z → len (label b) = batch_size)
  | NextRowGroup tail => tail_inv batch_size tail
  end.

(** The rows of a list of columns of equal length: row [i] holds element
    [i] of every column, in column order. *)
Definition rows_of (columns : list (list A)) : list (list A) :=
  (λ i, omap (λ c, c !! i) columns) <$> seq 0 (length (default [] (head columns))).

(** A label value and a row of feature values come from one row of the
    input: some input row starts with the label value and holds every one of
    the feature values among its feature fields. *)
Definition same_input_row (input : list (list A)) (l : A) (feature_row : list A) : Prop :=
  Exists (λ row, head row = Some l ∧ feature_row ⊆ drop 1 row) input.

(** Rows [i] of the label array and of the feature array of a batch come
    from one input row, for every [i]. *)
Definition row_aligned (input : list (list A)) (b : batch A) : Prop :=
  ∀ i l feature_row,
    label b !! i = Some l → rows (features b) !! i = Some feature_row →
    same_input_row input l feature_row.

(** A batch of [batch_size] rows over [num_feature_columns] feature
    columns. *)
Definition training_batch (batch_size : Z) (num_feature_columns : nat) (b : batch A) : Prop :=
  len (label b) = batch_size ∧
  shape (features b) = (Z.to_nat batch_size, num_feature_columns).

End vocabulary.

(** A construction that fails. *)
Definition raises {X : Type} (r : result X) : Prop := ∃ e, r = inl e.

(** ** The field pairs of the product layers

    [InnerProductLayer.forward] and [OutterProductLayer.forward] start with
    the same loops, which list the pairs of positions of their input, and
    pick the elements of the input at these positions; the lists they hand to
    [flow.cat] are modelled, the tensor arithmetic after it is not. *)

(** [range(start, stop)] *)
Definition py_range (start stop : Z) : list Z := seqZ start (stop - start).

(** [l[i]] for an integer [i]: a negative index counts from the end. *)
Definition getitem {X : Type} (l : list X) (i : Z) : result X :=
  let i := if decide (i < 0)%Z then (i + len l)%Z else i in
  if decide (0 ≤ i)%Z then index l (Z.to_nat i) else inl IndexError.

(** The lists [row] and [col] after
    [for i in range(num_inputs - 1): for j in range(i + 1, num_inputs):
       row.append(i); col.append(j)]. *)
Definition pair_indices (num_inputs : Z) : list Z * list Z :=
  let row := [] in
  let col := [] in
  foldl (λ '(row, col) i,
           foldl (λ '(row, col) j, ((row ++ [i])%list, (col ++ [j])%list))
             (row, col) (py_range (i + 1) num_inputs))
    (row, col) (py_range 0 (num_inputs - 1)).

(** [[embed_list[idx] for idx in row]] and [[embed_list[idx] for idx in col]],
    the arguments of the two calls of [flow.cat]. *)
Definition product_operands {X : Type} (embed_list : list X) : result (list X * list X) :=
  let num_inputs := len embed_list in
  let '(row, col) := pair_indices num_inputs in
  p ← result_mapM (getitem embed_list) row;
  q ← result_mapM (getitem embed_list) col;
  mret (p, q).

(** The pairs [(i, j)] with [i] before [j], in the order of the loops. *)
Definition ordered_pairs (num_inputs : Z) : list (Z * Z) :=
  i ← py_range 0 (num_inputs - 1); (λ j, (i, j)) <$> py_range (i + 1) num_inputs.

(** ** The layers of [DNN]

    [DNN.__init__]: the layers as the sizes they are built with, and the
    loop over their parameters that follows. The random values that
    [nn.init.normal_] draws are not modelled; the standard deviations the
    loop computes for them are, as far as they raise. *)

(** [DenseLayer(in_features, out_features, relu)] *)
Record DenseLayer : Type := {
  dense_in_features : Z;
  dense_out_features : Z;
  dense_relu : bool
}.

Inductive linear_layers : Type :=
  | FusedMLP (in_features : Z) (hidden_features : list Z) (out_features : Z)
      (skip_final_activation : bool)
  | Sequential (denses : list DenseLayer).

Definition DNN_init (in_features : Z) (hidden_units : list Z)
    (skip_final_activation fused : bool) : result linear_layers :=
  if fused then
    let hidden_features := slice hidden_units 0 (-1) in
    out_features ← getitem hidden_units (-1);
    mret (FusedMLP in_features hidden_features out_features skip_final_activation)
  else
    let units := ([in_features] ++ hidden_units)%list in
    let num_layers := len hidden_units in
    denses ← result_mapM (λ i,
                units_i ← getitem units i;
                units_i1 ← getitem units (i + 1);
                mret {| dense_in_features := units_i;
                        dense_out_features := units_i1;
                        dense_relu := negb skip_final_activation
                                      || bool_decide (i + 1 < num_layers)%Z |})
              (py_range 0 num_layers);
    mret (Sequential denses).

(** [self.linear_layers.named_parameters()], each parameter as its name and
    its shape. A linear layer from [in_features] to [out_features] has a
    weight of shape [(out_features, in_features)] and a bias of shape
    [(out_features,)]. [nn.FusedMLP] names them [weight_k] and [bias_k];
    in a [nn.Sequential] of dense layers the linear layer of layer [k] is
    [k.features.0] under a ReLU and [k.features] without one. *)
Definition named_parameters (layers : linear_layers) : list (string * list Z) :=
  match layers with
  | FusedMLP in_features hidden_features out_features _ =>
      let sizes := (in_features :: hidden_features ++ [out_features])%list in
      mjoin (imap (λ k '(in_features, out_features),
                     [("weight_" +:+ pretty k, [out_features; in_features]);
                      ("bias_" +:+ pretty k, [out_features])])
               (zip sizes (drop 1 sizes)))
  | Sequential denses =>
      mjoin (imap (λ k dense,
                     let linear :=
                       pretty k +:+ (if dense_relu dense then ".features.0." else ".features.") in
                     [(linear +:+ "weight",
                       [dense_out_features dense; dense_in_features dense]);
                      (linear +:+ "bias", [dense_out_features dense])])
               denses)
  end.

(** [sub in s] for strings. *)
Definition contains (sub s : string) : bool :=
  if String.index 0 sub s is Some _ then true else false.

(** [a / b] for integers. The quotient, a float, only scales random values
    and is not computed; the division raises for a zero divisor. *)
Definition truediv (a b : Z) : result unit :=
  if decide (b = 0)%Z then inl ZeroDivisionError else inr ().

(** [sum(shape)] *)
Definition py_sum (shape : list Z) : Z := foldl Z.add 0%Z shape.

(** [for name, param in self.linear_layers.named_parameters(): ...], the
    loop that ends [DNN.__init__]. *)
Definition DNN_init_parameters (layers : linear_layers) : result unit :=
  result_mapM (λ '(name, shape),
      if contains "weight" name then
        (* nn.init.normal_(param, 0.0, np.sqrt(2 / sum(param.shape))) *)
        truediv 2 (py_sum shape)
      else if contains "bias" name then
        (* nn.init.normal_(param, 0.0, np.sqrt(1 / param.shape[0])) *)
        shape_0 ← getitem shape 0;
        truediv 1 shape_0
      else mret ())
    (named_parameters layers);;
  mret ().

(** [DNN(in_features, hidden_units, skip_final_activation, fused)]: the
    whole of [DNN.__init__]. *)
Definition DNN (in_features : Z) (hidden_units : list Z)
    (skip_final_activation fused : bool) : result linear_layers :=
  linear_layers ← DNN_init in_features hidden_units skip_final_activation fused;
  DNN_init_parameters linear_layers;;
  mret linear_layers.

(** [self.dnn_layer] of [PNNModule.__init__]. *)
Definition PNNModule_dnn_layer (embedding_vec_size : Z) (dnn : list Z) (use_fusedmlp : bool)
    : result linear_layers :=
  DNN (embedding_vec_size * (Z.of_nat num_dense_fields + Z.of_nat num_sparse_fields))
    (dnn ++ [1%Z])%list true use_fusedmlp.

(** The sizes a stack of layers maps between, layer by layer: the input size
    of the stack followed by the output size of every layer. *)
Definition layer_sizes (layers : linear_layers) : list Z :=
  match layers with
  | FusedMLP in_features hidden_features out_features _ =>
      (in_features :: hidden_features ++ [out_features])%list
  | Sequential [] => []
  | Sequential (dense :: denses) =>
      dense_in_features dense :: (dense_out_features <$> (dense :: denses))
  end.

(** The layers of a [Sequential] fit: every layer takes what the layer before
    it gives. *)
Fixpoint layers_fit (denses : list DenseLayer) : Prop :=
  match denses with
  | dense1 :: ((dense2 :: _) as denses') =>
      dense_out_features dense1 = dense_in_features dense2 ∧ layers_fit denses'
  | _ => True
  end.

(** ** The forward pass of [PNNModule] and the graphs

    Python-level control and errors are modelled; the calls into the
    framework are parameters that may raise. A tensor is the list of its
    entries along axis 0 where the code takes its length or indexes it. *)

(** The exceptions of the module and of the loops: those of the dataloader
    and three more. *)
Inductive exception : Type :=
  | Exn (e : exn)
  | StopIteration
  | NameError (name : string)
  | AttributeError (name : string).

Definition attempt (X : Type) : Type := exception + X.

#[global] Instance attempt_mret : MRet attempt := λ X x, inr x.
#[global] Instance attempt_mbind : MBind attempt := λ X Y f m,
  match m with
  | inl e => inl e
  | inr x => f x
  end.

Definition of_result {X : Type} (r : result X) : attempt X :=
  match r with
  | inl e => inl (Exn e)
  | inr x => inr x
  end.

Fixpoint attempt_mapM {X Y : Type} (f : X → attempt Y) (xs : list X) : attempt (list Y) :=
  match xs with
  | [] => mret []
  | x :: xs => y ← f x; ys ← attempt_mapM f xs; mret (y :: ys)
  end.

Section module.
Context {A X T Y L : Type}.

(** [self.embedding_layer(inputs)] *)
Variable embedding_layer : ndarray2 A → attempt (list X).
(** [flow.cat(tensors, dim=1)] *)
Variable flow_cat : list X → attempt T.
(** [p * q] *)
Variable flow_mul : T → T → attempt T.
(** [flow.sum(inner_product, dim=2, keepdim=True)] *)
Variable flow_sum : T → attempt T.
(** [flow.flatten(tensor, start_dim=1)] *)
Variable flow_flatten : T → attempt T.
(** [self.loss(logits, labels)], [flow.mean] and [backward] *)
Variable loss_backward : Y → list A → attempt L.

(** [InnerProductLayer.forward(inputs)] *)
Definition InnerProductLayer_forward (reduce_sum : bool) (inputs : list X) : attempt T :=
  let embed_list := inputs in
  let num_inputs := len embed_list in
  let '(row, col) := pair_indices num_inputs in
  p ← (of_result (result_mapM (getitem embed_list) row) ≫= flow_cat);
  q ← (of_result (result_mapM (getitem embed_list) col) ≫= flow_cat);
  inner_product ← flow_mul p q;
  if reduce_sum then flow_sum inner_product else mret inner_product.

(** [PNNModule.forward(inputs)]. [__init__] sets [embedding_layer],
    [dnn_layer], [sigmoid], [innerproduct] and [outterproduct]; the
    attribute [fm_layer] that line 561 reads is set nowhere. *)
Definition PNNModule_forward (inputs : ndarray2 A) : attempt Y :=
  embedded_x ← embedding_layer inputs;
  (* print(embedded_x.shape) *)
  inner_product ← (InnerProductLayer_forward true embedded_x ≫= flow_flatten);
  (* fm_pred = self.fm_layer(inputs, embedded_x) *)
  inl (AttributeError "fm_layer").

(** [PNNValGraph.build(features)] *)
Definition PNNValGraph_build (features : ndarray2 A) : attempt Y :=
  predicts ← PNNModule_forward features;
  mret predicts.

(** [PNNTrainGraph.build(labels, features)] *)
Definition PNNTrainGraph_build (labels : list A) (features : ndarray2 A) : attempt L :=
  logits ← PNNModule_forward features;
  loss_backward logits labels.

End module.

(** ** The training and the evaluation loop

    [eval] and [train] as they drive a dataloader. [eval] takes its graph
    as an argument; [train] calls the graph it has built from the module.
    The metric and the output of [nvidia-smi] are parameters. [train]
    records its calls of [train_graph], [print] and [eval] as events, in
    order. The construction of the module and the graphs, which comes
    before the loop of [train], and the timing are not modelled. *)

(** [a % b] *)
Definition py_mod (a b : Z) : attempt Z :=
  if decide (b = 0)%Z then inl (Exn ZeroDivisionError) else inr (a `mod` b)%Z.

(** [np.concatenate(arrays, axis=0)] of a list of arrays, each the list of its
    entries along axis 0. *)
Definition np_concatenate_axis0 {X : Type} (arrays : list (list X)) : attempt (list X) :=
  match arrays with
  | [] => inl (Exn (ValueError "need at least one array to concatenate"))
  | _ => inr (concat arrays)
  end.

(** The character ["\n"]. *)
Definition newline : Ascii.ascii :=
  Ascii.Ascii false true false true false false false false.

(** [s.split("\n")] *)
Fixpoint split_newline (s : string) : list string :=
  match s with
  | EmptyString => [EmptyString]
  | String c s' =>
      if Ascii.eqb c newline then EmptyString :: split_newline s'
      else match split_newline s' with
           | line :: lines => String c line :: lines
           | [] => [String c EmptyString]
           end
  end.

(** How a generator ends once its batches are consumed. *)
Inductive ending : Type :=
  | Exhausted
  | Failed (e : exn).

(** The arguments of the command line that the loops read. *)
Record Args : Type := {
  train_batches : Z;
  loss_print_interval : Z;
  eval_interval : Z;
  eval_batches : Z;
  save_model_after_each_eval : bool
}.

Section loops.
Context {A Q AUC : Type}.

(** A dataloader, as [with make_criteo_dataloader(...) as loader] binds it:
    the batches the generator is still to yield and the way it ends. *)
Record Loader : Type := {
  loader_batches : list (batch A);
  loader_ending : ending
}.

(** The generator of a run of [get_batches]. *)
Definition loader_of_run {X : Type} (run : gen A X) : Loader :=
  {| loader_batches := batches run;
     loader_ending := match run.2 with
                      | Raised e => Failed e
                      | _ => Exhausted
                      end |}.

(** [make_criteo_dataloader(data_path, batch_size, shuffle)] entered by
    [with]: [__enter__] starts the reader, which delivers the row groups
    [reader], and returns the generator. *)
Definition criteo_loader (env : Env) (data_path : string) (batch_size : Z)
    (shuffle : bool) (reader : list (gmap string (list A))) : attempt Loader :=
  self ← of_result (make_criteo_dataloader env data_path batch_size shuffle);
  mret (loader_of_run (get_batches self reader None)).

(** [next(loader)] *)
Definition next (loader : Loader) : attempt (batch A * Loader) :=
  match loader_batches loader with
  | np_batch :: rest =>
      inr (np_batch, {| loader_batches := rest; loader_ending := loader_ending loader |})
  | [] =>
      match loader_ending loader with
      | Exhausted => inl StopIteration
      | Failed e => inl (Exn e)
      end
  end.

(** *** eval *)

(** [pred = eval_graph(features)] followed by [pred.numpy()], the list of
    its entries along axis 0. *)
Variable eval_graph : ndarray2 A → attempt (list Q).
(** [roc_auc_score(labels, preds)] *)
Variable roc_auc_score : list A → list Q → attempt AUC.

(** What [eval] returns: [None], [0] or the score. *)
Inductive eval_result : Type :=
  | EvalNone
  | EvalZero
  | EvalScore (auc : AUC).

(** [for np_batch in loader: ...] of [eval]; it returns [labels] and
    [preds]. *)
Fixpoint eval_loop (args : Args) (num_eval_batches : Z)
    (labels : list (list A)) (preds : list (list Q))
    (loader_batches : list (batch A)) (loader_ending : ending)
    : attempt (list (list A) * list (list Q)) :=
  match loader_batches with
  | [] =>
      match loader_ending with
      | Exhausted => inr (labels, preds)
      | Failed e => inl (Exn e)
      end
  | np_batch :: rest =>
      let num_eval_batches := (num_eval_batches + 1)%Z in
      if decide (num_eval_batches > eval_batches args)%Z then
        (* break *)
        inr (labels, preds)
      else
        pred ← eval_graph (features np_batch);
        let labels := (labels ++ [label np_batch])%list in
        let preds := (preds ++ [pred])%list in
        eval_loop args num_eval_batches labels preds rest loader_ending
  end.

(** [eval(args, eval_graph, cur_step)] on the process [rank], where [loader]
    is what [make_criteo_dataloader(f"{args.data_dir}/test", ...)] gives and
    [nvidia_smi] is what the process reads from the command [nvidia-smi]. *)
Definition eval (nvidia_smi : string) (args : Args) (rank : Z) (loader : attempt Loader)
    : attempt eval_result :=
  if decide (eval_batches args ≤ 0)%Z then mret EvalNone
  else
    let labels := [] in
    let preds := [] in
    loader ← loader;
    let num_eval_batches := 0%Z in
    '(labels, preds) ← eval_loop args num_eval_batches labels preds
                          (loader_batches loader) (loader_ending loader);
    if decide (rank = 0)%Z then
      labels ← np_concatenate_axis0 labels;
      preds ← np_concatenate_axis0 preds;
      auc ← roc_auc_score labels preds;
      (* host_mem_mb = psutil.Process().memory_info().rss // (1024 * 1024)
         stream = os.popen("nvidia-smi --query-gpu=memory.used --format=csv")
         device_mem_str = stream.read().split("\n")[rank + 1] *)
      device_mem_str ← of_result (getitem (split_newline nvidia_smi) (rank + 1));
      (* print(...) *)
      mret (EvalScore auc)
    else mret EvalZero.

(** *** train *)

Context {X T Y L : Type}.
Variable embedding_layer : ndarray2 A → attempt (list X).
Variable flow_cat : list X → attempt T.
Variable flow_mul : T → T → attempt T.
Variable flow_sum : T → attempt T.
Variable flow_flatten : T → attempt T.
Variable loss_backward : Y → list A → attempt L.

(** [train_graph(labels, features)]: the graph runs [build]. *)
Definition train_graph (labels : list A) (features : ndarray2 A) : attempt L :=
  PNNTrainGraph_build embedding_layer flow_cat flow_mul flow_sum flow_flatten loss_backward
    labels features.

(** The calls the training makes, in order: [train_graph] at a step, on a
    batch; [print] of the loss; [eval]. *)
Inductive train_event : Type :=
  | TrainGraph (step : Z) (np_batch : batch A)
  | PrintLoss (step last_step : Z)
  | Eval (cur_step : Z).

Definition training (X : Type) : Type := list train_event * attempt X.

#[global] Instance training_mret : MRet training := λ X x, ([], inr x).
#[global] Instance training_mbind : MBind training := λ X Y f m,
  match m with
  | (evs, inr x) => let (evs', r) := f x in ((evs ++ evs')%list, r)
  | (evs, inl e) => (evs, inl e)
  end.

Definition try {X : Type} (r : attempt X) : training X := ([], r).
Definition emit (ev : train_event) : training unit := ([ev], inr ()).

(** [auc = eval(args, eval_graph, step)] and the saving of the model that
    follows it; [eval_at step] is what the call of [eval] gives at that
    point of the training. No [save_model] is defined. *)
Definition evaluate (args : Args) (eval_at : Z → attempt eval_result) (step : Z)
    : training unit :=
  emit (Eval step);;
  auc ← try (eval_at step);
  if save_model_after_each_eval args then try (inl (NameError "save_model"))
  else mret ().

(** The body of [for step in range(1, args.train_batches + 1)]; it returns
    [last_step] and the loader. *)
Definition train_step (args : Args) (rank : Z) (eval_at : Z → attempt eval_result)
    (step last_step : Z) (loader : Loader) : training (Z * Loader) :=
  '(np_batch, loader) ← try (next loader);
  emit (TrainGraph step np_batch);;
  loss ← try (train_graph (label np_batch) (features np_batch));
  r ← try (py_mod step (loss_print_interval args));
  last_step ←
    (if decide (r = 0)%Z then
       if decide (rank = 0)%Z then
         (* latency_ms = 1000 * (...) / (step - last_step) *)
         if decide (step - last_step = 0)%Z then try (inl (Exn ZeroDivisionError))
         else emit (PrintLoss step last_step);; mret step
       else mret last_step
     else mret last_step);
  (if decide (eval_interval args > 0)%Z then
     r ← try (py_mod step (eval_interval args));
     if decide (r = 0)%Z then evaluate args eval_at step else mret ()
   else mret ());;
  mret (last_step, loader).

(** [for step in range(1, args.train_batches + 1): ...]; it returns [step],
    [last_step] and the loader. *)
Fixpoint train_loop (args : Args) (rank : Z) (eval_at : Z → attempt eval_result)
    (steps : list Z) (step last_step : Z) (loader : Loader)
    : training (Z * Z * Loader) :=
  match steps with
  | [] => mret (step, last_step, loader)
  | step :: steps' =>
      '(last_step, loader) ← train_step args rank eval_at step last_step loader;
      train_loop args rank eval_at steps' step last_step loader
  end.

(** [train(args)] from [step, last_step, last_time = -1, 0, time.time()] on,
    where [loader] is what
    [make_criteo_dataloader(f"{args.data_dir}/train", ...)] gives. *)
Definition train (args : Args) (rank : Z) (eval_at : Z → attempt eval_result)
    (loader : attempt Loader) : training unit :=
  let step := (-1)%Z in
  let last_step := 0%Z in
  loader ← try loader;
  '(step, last_step, loader) ←
    train_loop args rank eval_at (py_range 1 (train_batches args + 1)) step last_step loader;
  if decide (eval_interval args > 0)%Z then
    r ← try (py_mod step (eval_interval args));
    if decide (r ≠ 0)%Z then evaluate args eval_at step else mret ()
  else mret ().

End loops.

Arguments Loader : clear implicits.
Arguments eval_result : clear implicits.
Arguments train_event : clear implicits.
Arguments training : clear implicits.

(** An evaluation is due after a step: [args.eval_interval > 0 and
    step % args.eval_interval == 0]. *)
Definition evaluation_due (args : Args) (step : Z) : Prop :=
  (eval_interval args > 0)%Z ∧ (step `mod` eval_interval args = 0)%Z.

#[global] Instance evaluation_due_dec args step : Decision (evaluation_due args step).
Proof. unfold evaluation_due. apply _. Defined.

(** The evaluation asked for at a step goes well: the call of [eval] raises
    nothing and no model is to be saved. *)
Definition evaluation_goes_well {AUC : Type} (args : Args)
    (eval_at : Z → attempt (eval_result AUC)) (step : Z) : Prop :=
  save_model_after_each_eval args = false ∧ ∃ r, eval_at step = inr r.

(** The exception with which [next] raises at the end of a loader. *)
Definition ending_exception (final : ending) : exception :=
  match final with
  | Exhausted => StopIteration
  | Failed e => Exn e
  end.

(** ** Vocabulary of the label stream *)

Section label_stream.
Context {A : Type}.

(** The label values carried by the batches of a list of events, in order. *)
Definition event_labels (evs : list (event A)) : list A :=
  evs ≫= (λ ev, match ev with Yield b _ => label b | NextRowGroup _ => [] end).

(** The label values a run yields, in the order it yields them. *)
Definition yielded_labels {X : Type} (run : gen A X) : list A := event_labels run.1.

(** Column 0 (the labels) of the tail buffer; nothing when there is none. *)
Definition tail_labels (tail : option (list (list A))) : list A :=
  match tail with
  | Some (tail_0 :: _) => tail_0
  | _ => []
  end.

(** Column 0 (the labels) of a row group, in the order of the schema. *)
Definition row_group_labels (self : PNNDataReader) (rgdict : gmap string (list A)) : list A :=
  match rglist_of self rgdict with
  | inr (rglist_0 :: _) => rglist_0
  | _ => []
  end.

(** Started after the labels [acc] have been yielded, the run leaves yielded
    labels that satisfy [I] however it stops and, if it ends normally with
    [x], labels that satisfy [Q x]. *)
Definition gen_trace {X : Type} (I : list A → Prop) (Q : X → list A → Prop)
    (acc : list A) (m : gen A X) : Prop :=
  I (acc ++ event_labels m.1)%list ∧ ∀ x, m.2 = Ok x → Q x (acc ++ event_labels m.1)%list.

End label_stream.

(** ** Example data

    A row group with [n] rows over the forty fields of the schema: the value
    in column [j], row [i] is [100 * j + first + i], so that every cell of a
    run of row groups numbered consecutively from [first] is distinct. *)

Definition criteo_reader (batch_size : Z) : PNNDataReader :=
  PNNDataReader_init ["file:///data/part-0.parquet"] batch_size (Some 1%Z) false 1234 1 0.

Definition example_row_group (first : Z) (n : nat) : gmap string (list Z) :=
  list_to_map
    (imap (λ j field, (field, (λ i, 100 * Z.of_nat j + first + Z.of_nat i)%Z <$> seq 0 n))
       (fields (criteo_reader 0))).

(** The same row group as the list of its columns, in schema order. *)
Definition example_columns (first : Z) (n : nat) : list (list Z) :=
  imap (λ j _, (λ i, 100 * Z.of_nat j + first + Z.of_nat i)%Z <$> seq 0 n)
    (fields (criteo_reader 0)).

(** An environment with two parquet files and [world_size] processes. *)
Definition example_env (world_size : Z) : Env :=
  {| glob := λ _, ["/data/train/b.parquet"; "/data/train/a.parquet"];
     get_world_size := world_size;
     get_rank := 0 |}.

(** Batches, graphs, arguments and loaders for the loops. *)
Definition example_batch (first : Z) : batch Z :=
  Batch [first; first + 1]%Z
    {| shape := (2, 2)%nat; rows := [[first; first]; [first + 1; first + 1]]%Z |}.

Definition example_eval_graph (features : ndarray2 Z) : attempt (list Z) :=
  inr ((λ row, foldr Z.add 0%Z row) <$> rows features).

Definition example_roc_auc_score (labels preds : list Z) : attempt Z :=
  inr (Z.of_nat (length (filter (λ p, p.1 ≤ p.2)%Z (zip labels preds)))).

Definition example_nvidia_smi : string :=
  "memory.used [MiB]" +:+ String newline ("4 MiB" +:+ String newline "").

Definition example_embedding_layer (inputs : ndarray2 Z) : attempt (list (list Z)) :=
  inr (rows inputs).
Definition example_flow_cat (tensors : list (list Z)) : attempt (list Z) :=
  inr (concat tensors).
Definition example_flow_mul (p q : list Z) : attempt (list Z) := inr (zip_with Z.mul p q).
Definition example_flow_sum (t : list Z) : attempt (list Z) := inr [foldr Z.add 0%Z t].
Definition example_flow_flatten (t : list Z) : attempt (list Z) := inr t.
Definition example_loss_backward (logits : list Z) (labels : list Z) : attempt Z :=
  inr (foldr Z.add 0%Z logits).

Definition example_args (train_batches loss_print_interval eval_interval : Z)
    (save_model_after_each_eval : bool) : Args :=
  {| train_batches := train_batches;
     loss_print_interval := loss_print_interval;
     eval_interval := eval_interval;
     eval_batches := 2;
     save_model_after_each_eval := save_model_after_each_eval |}.

Definition example_eval_at (step : Z) : attempt (eval_result Z) := inr (EvalScore step).

Definition example_loader (n : nat) (final : ending) : Loader Z :=
  {| loader_batches := (λ i, example_batch (2 * i)) <$> seqZ 0 (Z.of_nat n);
     loader_ending := final |}.

(** [train] on the example functions. *)
Definition example_train :=
  train (AUC := Z) example_embedding_layer example_flow_cat example_flow_mul
    example_flow_sum example_flow_flatten example_loss_backward.

(** Well-formedness of a concrete row group of [n] rows, by evaluation. *)
Ltac well_formed_by_evaluation n :=
  eexists _, n; split; [vm_compute; reflexivity | repeat constructor].

(** * Properties *)

(** ** Slices *)

Section slices.
Context {X : Type}.
Implicit Types l : list X.

Lemma len_nonneg l : (0 ≤ len l)%Z.
Proof. unfold len. lia. Qed.

Lemma len_app l1 l2 : len (l1 ++ l2) = (len l1 + len l2)%Z.
Proof. unfold len. rewrite length_app. lia. Qed.

Lemma len_slice l (start stop : Z) :
  (0 ≤ start)%Z → (start ≤ stop)%Z → (stop ≤ len l)%Z →
  len (slice l start stop) = (stop - start)%Z.
Proof.
  intros Hs Hle Hstop. unfold slice, slice_index, len in *.
  repeat case_decide; try lia.
  rewrite length_take, length_drop. lia.
Qed.

Lemma len_slice_prefix l (stop : Z) :
  (0 ≤ stop)%Z → len (slice l 0 stop) = Z.min stop (len l).
Proof.
  intros Hs. unfold slice, slice_index, len in *.
  repeat case_decide; try lia.
  rewrite length_take, length_drop. lia.
Qed.

Lemma slice_prefix_all l (stop : Z) : (len l ≤ stop)%Z → slice l 0 stop = l.
Proof.
  intros Hs. unfold slice, slice_index, len in *.
  repeat case_decide; try lia.
  replace (Z.to_nat (Z.min 0 _)) with 0 by lia.
  simpl. apply take_ge. lia.
Qed.

Lemma len_slice_from l (start : Z) :
  (0 ≤ start)%Z → len (slice_from l start) = Z.max (len l - start) 0.
Proof.
  intros Hs. unfold slice_from, slice_index, len in *.
  case_decide; try lia.
  rewrite length_drop. lia.
Qed.

Lemma slice_from_1 l : slice_from l 1 = drop 1 l.
Proof.
  unfold slice_from, slice_index, len. case_decide; try lia.
  destruct l as [|x l]; [done|].
  replace (Z.to_nat (Z.min 1 _)) with 1; [done|].
  simpl length. lia.
Qed.

(** An empty range of bounds selects nothing. *)
Lemma slice_empty l (start stop : Z) :
  (slice_index (len l) stop ≤ slice_index (len l) start)%Z → slice l start stop = [].
Proof.
  intros Hle. unfold slice.
  replace (Z.to_nat _) with 0 by lia. done.
Qed.

Lemma slice_index_mono_neg (n i j : Z) :
  (i ≤ j)%Z → (j < 0)%Z → (slice_index n i ≤ slice_index n j)%Z.
Proof. intros. unfold slice_index. repeat case_decide; lia. Qed.

Lemma slice_index_mono_nonneg (n i j : Z) :
  (0 ≤ i)%Z → (i ≤ j)%Z → (slice_index n i ≤ slice_index n j)%Z.
Proof. intros. unfold slice_index. repeat case_decide; lia. Qed.

End slices.

(** ** Reasoning about generators *)

Section generator_logic.
Context {A : Type}.
Implicit Types P : event A → Prop.

Lemma lift_bind {X Y : Type} (x : X) (f : X → gen A Y) : (lift (inr x) ≫= f) = f x.
Proof. unfold mbind, gen_mbind. simpl. by destruct (f x). Qed.

Lemma gen_bind_ext {X Y : Type} (m : gen A X) (f g : X → gen A Y) :
  (∀ x, f x = g x) → (m ≫= f) = (m ≫= g).
Proof.
  intros Hfg. unfold mbind, gen_mbind.
  destruct m as [evs [x| e |]]; simpl; [|done..]. by rewrite Hfg.
Qed.

Lemma gen_sat_ret {X : Type} P (Q : X → Prop) (x : X) : Q x → gen_sat P Q (mret x).
Proof. intros HQ. split; [constructor|]. intros y [= <-]. done. Qed.

Lemma gen_sat_bind {X Y : Type} P (R : X → Prop) (Q : Y → Prop)
    (m : gen A X) (f : X → gen A Y) :
  gen_sat P R m → (∀ x, R x → gen_sat P Q (f x)) → gen_sat P Q (m ≫= f).
Proof.
  intros [Hev Hres] Hf. unfold mbind, gen_mbind.
  destruct m as [evs [x| e |]]; simpl in *.
  - destruct (Hf x (Hres x eq_refl)) as [Hev' Hres'].
    destruct (f x) as [evs' o]; simpl in *.
    split; [by apply Forall_app|done].
  - split; [done|]. intros y [=].
  - split; [done|]. intros y [=].
Qed.

Lemma gen_sat_lift {X : Type} P (Q : X → Prop) (r : result X) :
  (∀ x, r = inr x → Q x) → gen_sat P Q (lift r).
Proof.
  intros HQ. destruct r as [e|x]; (split; [constructor|]); simpl.
  - intros y [=].
  - intros y [= <-]. by apply HQ.
Qed.

Lemma gen_sat_yield P (Q : unit → Prop) (b : batch A) tail :
  P (Yield b tail) → Q () → gen_sat P Q (yield b tail).
Proof.
  intros HP HQ. split; simpl; [by repeat constructor|]. by intros [] _.
Qed.

Lemma gen_sat_next_row_group P (Q : unit → Prop) tail :
  P (NextRowGroup tail) → Q () → gen_sat P Q (next_row_group tail).
Proof.
  intros HP HQ. split; simpl; [by repeat constructor|]. by intros [] _.
Qed.

Lemma gen_sat_mono {X : Type} P P' (Q Q' : X → Prop) (m : gen A X) :
  (∀ ev, P ev → P' ev) → (∀ x, Q x → Q' x) → gen_sat P Q m → gen_sat P' Q' m.
Proof.
  intros HP HQ [Hev Hres]. split; [by eapply Forall_impl|]. naive_solver.
Qed.

(** The same for termination. *)
Lemma terminates_ret {X : Type} (x : X) : terminates (mret x : gen A X).
Proof. done. Qed.

Lemma terminates_lift {X : Type} (r : result X) : terminates (lift r : gen A X).
Proof. by destruct r. Qed.

Lemma terminates_bind {X Y : Type} (m : gen A X) (f : X → gen A Y) :
  terminates m → (∀ x, m.2 = Ok x → terminates (f x)) → terminates (m ≫= f).
Proof.
  unfold terminates, mbind, gen_mbind. intros Hm Hf.
  destruct m as [evs [x| e |]]; simpl in *; [|done..].
  specialize (Hf x eq_refl). by destruct (f x).
Qed.

End generator_logic.

(** ** Comprehensions *)

Section comprehensions.
Context {X Y : Type}.
Implicit Types (f : X → result Y) (xs : list X) (ys : list Y).

Lemma result_mapM_Forall f (Q : Y → Prop) xs ys :
  (∀ x y, x ∈ xs → f x = inr y → Q y) → result_mapM f xs = inr ys → Forall Q ys.
Proof.
  revert ys. induction xs as [|x xs IH]; intros ys HQ; simpl.
  - intros [= <-]. constructor.
  - destruct (f x) as [e|y] eqn:Hfx; [done|].
    destruct (result_mapM f xs) as [e|ys'] eqn:Hxs; [done|].
    intros [= <-]. constructor.
    + eapply HQ; [left|done].
    + apply IH; [|done]. intros x' y' Hin. apply HQ. by right.
Qed.

Lemma result_mapM_Forall2 f xs ys :
  Forall2 (λ x y, f x = inr y) xs ys → result_mapM f xs = inr ys.
Proof.
  induction 1 as [|x y xs ys Hxy _ IH]; simpl; [done|]. by rewrite Hxy, IH.
Qed.

Lemma result_mapM_length f xs ys : result_mapM f xs = inr ys → length ys = length xs.
Proof.
  revert ys. induction xs as [|x xs IH]; intros ys; simpl.
  - by intros [= <-].
  - destruct (f x) as [e|y]; [done|].
    destruct (result_mapM f xs) as [e|ys']; [done|].
    intros [= <-]. simpl. f_equal. by apply IH.
Qed.

End comprehensions.

Lemma index_inr {X : Type} (l : list X) (i : nat) (x : X) : index l i = inr x ↔ l !! i = Some x.
Proof. unfold index. destruct (l !! i); naive_solver. Qed.

(** ** The stitcher *)

Section stitcher.
Context {A : Type}.
Implicit Types (self : PNNDataReader) (rglist : list (list A)).
Implicit Types (tail : option (list (list A))) (P : event A → Prop).

Lemma rglist_of_length self (rgdict : gmap string (list A)) rglist :
  rglist_of self rgdict = inr rglist → length rglist = length (fields self).
Proof. apply result_mapM_length. Qed.

(** *** The [while] loop *)

Lemma slicing_loop_unfold (fuel : nat) (batch_size : Z) rglist tail (pos : Z) :
  slicing_loop (S fuel) batch_size rglist tail pos =
    (rglist_0 ← lift (index rglist 0);
     if decide (pos + batch_size ≤ len rglist_0)%Z then
       stacked ← lift (np_stack_last
                         (slice (slice_from rglist 1) pos (pos + batch_size)));
       yield (Batch (slice rglist_0 pos (pos + batch_size)) stacked) tail;;
       slicing_loop fuel batch_size rglist tail (pos + batch_size)
     else mret pos).
Proof. reflexivity. Qed.

(** The loop started at [pos0] visits the positions [pos0 + k * batch_size]
    and stops at the first one from which fewer than [batch_size] rows are
    left in column 0. *)
Lemma slicing_loop_sat P (batch_size : Z) rglist tail (pos0 : Z) (fuel : nat) :
  (∀ (k : nat) (rglist_0 : list A) (stacked : ndarray2 A),
     rglist !! 0 = Some rglist_0 →
     (pos0 + Z.of_nat k * batch_size + batch_size ≤ len rglist_0)%Z →
     P (Yield (Batch (slice rglist_0 (pos0 + Z.of_nat k * batch_size)
                        (pos0 + Z.of_nat k * batch_size + batch_size)) stacked) tail)) →
  ∀ k : nat,
  gen_sat P
    (λ pos, (∃ k' : nat, pos = (pos0 + Z.of_nat k' * batch_size)%Z) ∧
            ∀ rglist_0 : list A, rglist !! 0 = Some rglist_0 → (len rglist_0 < pos + batch_size)%Z)
    (slicing_loop fuel batch_size rglist tail (pos0 + Z.of_nat k * batch_size)).
Proof.
  intros HP. induction fuel as [|fuel IH]; intros k.
  { split; [constructor|]. intros x [=]. }
  rewrite slicing_loop_unfold.
  apply (gen_sat_bind P (λ c, rglist !! 0 = Some c)).
  { apply gen_sat_lift. intros c. by rewrite index_inr. }
  intros rglist_0 H0. case_decide as Hle.
  - apply (gen_sat_bind P (λ _, True)); [by apply gen_sat_lift|].
    intros stacked _.
    apply (gen_sat_bind P (λ _, True)).
    { apply gen_sat_yield; [|done]. by apply HP. }
    intros _ _.
    replace (pos0 + Z.of_nat k * batch_size + batch_size)%Z
      with (pos0 + Z.of_nat (S k) * batch_size)%Z by lia.
    apply IH.
  - apply gen_sat_ret. split; [by exists k|].
    intros c Hc. assert (c = rglist_0) as -> by congruence. lia.
Qed.

Lemma slicing_loop_sat_start P (batch_size : Z) rglist tail (pos0 : Z) (fuel : nat) :
  (∀ (k : nat) (rglist_0 : list A) (stacked : ndarray2 A),
     rglist !! 0 = Some rglist_0 →
     (pos0 + Z.of_nat k * batch_size + batch_size ≤ len rglist_0)%Z →
     P (Yield (Batch (slice rglist_0 (pos0 + Z.of_nat k * batch_size)
                        (pos0 + Z.of_nat k * batch_size + batch_size)) stacked) tail)) →
  gen_sat P
    (λ pos, (∃ k' : nat, pos = (pos0 + Z.of_nat k' * batch_size)%Z) ∧
            ∀ rglist_0 : list A, rglist !! 0 = Some rglist_0 → (len rglist_0 < pos + batch_size)%Z)
    (slicing_loop fuel batch_size rglist tail pos0).
Proof.
  intros HP.
  pose proof (slicing_loop_sat P batch_size rglist tail pos0 fuel HP 0) as H.
  change (Z.of_nat 0) with 0%Z in H. by rewrite Z.mul_0_l, Z.add_0_r in H.
Qed.

(** *** The tail *)

Lemma extend_tail_columns self (batch_size : Z) (tl rglist tl' : list (list A)) (n m : nat) :
  columns_of_length n tl → columns_of_length m rglist → (Z.of_nat n ≤ batch_size)%Z →
  extend_tail self batch_size tl rglist = inr tl' →
  columns_of_length (n + Z.to_nat (Z.min (batch_size - Z.of_nat n) (Z.of_nat m))) tl'.
Proof.
  intros Htl Hrg Hn. unfold extend_tail. apply result_mapM_Forall.
  intros i c _. unfold mbind, result_mbind, result_bind, mret, result_mret.
  destruct (index tl i) as [e|tl_i] eqn:Htl_i; [done|].
  destruct (index rglist i) as [e|rglist_i] eqn:Hrg_i; [done|].
  intros [= <-]. apply index_inr in Htl_i, Hrg_i.
  pose proof (Forall_lookup_1 _ _ _ _ Htl Htl_i) as Hlen_t. simpl in Hlen_t.
  pose proof (Forall_lookup_1 _ _ _ _ Hrg Hrg_i) as Hlen_r. simpl in Hlen_r.
  unfold np_concatenate. rewrite length_app.
  pose proof (len_slice_prefix rglist_i (batch_size - len tl_i)) as Hs.
  unfold len in *. lia.
Qed.

(** *** The body of the [for] loop *)

Lemma for_body_sat self (batch_size : Z) tail (rgdict : gmap string (list A)) :
  tail_inv batch_size tail → well_formed self rgdict →
  gen_sat (event_inv batch_size) (tail_inv batch_size)
    (for_body self batch_size tail rgdict).
Proof.
  intros Htail (rglist & m & Hrg & Hcols). unfold for_body. rewrite Hrg, lift_bind.
  apply (gen_sat_bind _
    (λ c, match c with
          | inl tl => tail_inv batch_size tl
          | inr (pos, tl) => tl = None ∧ (0 ≤ pos)%Z ∧ (pos = 0 ∨ 0 < batch_size)%Z
          end)).
  - destruct tail as [tl|]; [|by apply gen_sat_ret; auto with lia].
    destruct Htail as (n & Htl & Hn).
    apply (gen_sat_bind _ (λ c, length c = n)).
    { apply gen_sat_lift. intros c Hc%index_inr.
      apply (Forall_lookup_1 _ _ _ _ Htl Hc). }
    intros tl_0 Htl_0.
    set (n' := n + Z.to_nat (Z.min (batch_size - Z.of_nat n) (Z.of_nat m))).
    apply (gen_sat_bind _ (columns_of_length n')).
    { apply gen_sat_lift. intros tl'. apply extend_tail_columns; [done..|lia]. }
    intros tl' Htl'.
    apply (gen_sat_bind _ (λ c, length c = n')).
    { apply gen_sat_lift. intros c Hc%index_inr.
      apply (Forall_lookup_1 _ _ _ _ Htl' Hc). }
    intros tl'_0 Htl'_0. case_decide as Hfull.
    + apply (gen_sat_bind _ (λ _, True)); [by apply gen_sat_lift|].
      intros stacked _.
      apply (gen_sat_bind _ (λ _, True)); [by apply gen_sat_yield|].
      intros _ _. apply gen_sat_ret. unfold len. split; [done|]. lia.
    + apply gen_sat_ret. exists n'. split; [done|]. unfold len in Hfull. lia.
  - intros [tl | [pos tl]]; [by intros; apply gen_sat_ret|].
    intros (-> & Hpos & Hbs).
    eapply gen_sat_bind.
    { apply slicing_loop_sat_start. intros k rglist_0 stacked H0 Hle.
      split; [done|]. simpl. intros Hnonneg. rewrite len_slice; nia. }
    intros pos' [[k ->] Hexit]; simpl.
    apply (gen_sat_bind _ (λ c, rglist !! 0 = Some c)).
    { apply gen_sat_lift. intros c. by rewrite index_inr. }
    intros rglist_0 H0. specialize (Hexit _ H0).
    pose proof (Forall_lookup_1 _ _ _ _ Hcols H0) as Hlen_0. simpl in Hlen_0.
    pose proof (len_nonneg rglist_0).
    assert (0 < batch_size)%Z as Hbs' by nia.
    case_decide as Hne; [|by apply gen_sat_ret].
    set (pos' := (pos + Z.of_nat k * batch_size)%Z) in *.
    apply (gen_sat_bind _ (columns_of_length (Z.to_nat (Z.max (Z.of_nat m - pos') 0)))).
    + apply gen_sat_lift. intros tl. apply result_mapM_Forall.
      intros i c _. unfold mbind, result_mbind, result_bind, mret, result_mret.
      destruct (index rglist i) as [e|rglist_i] eqn:Hrg_i; [done|].
      intros [= <-]. apply index_inr in Hrg_i.
      pose proof (Forall_lookup_1 _ _ _ _ Hcols Hrg_i) as Hlen_i. simpl in Hlen_i.
      pose proof (len_slice_from rglist_i pos') as Hs.
      unfold len in *. subst pos'. nia.
    + intros tl Htl. apply gen_sat_ret. eexists. split; [done|].
      unfold len in *. subst pos'. nia.
Qed.

(** *** The [for] loop *)

Lemma for_loop_cons self (batch_size : Z) tail (rg : gmap string (list A)) reader :
  for_loop self batch_size tail (rg :: reader) =
    (tail ← for_body self batch_size tail rg;
     next_row_group tail;;
     for_loop self batch_size tail reader).
Proof. reflexivity. Qed.

Lemma for_loop_sat self (batch_size : Z) tail (reader : list (gmap string (list A))) :
  tail_inv batch_size tail → Forall (well_formed self) reader →
  gen_sat (event_inv batch_size) (tail_inv batch_size)
    (for_loop self batch_size tail reader).
Proof.
  intros Htail Hwf. revert tail Htail.
  induction Hwf as [|rg reader Hrg Hwf IH]; intros tail Htail.
  - by apply gen_sat_ret.
  - rewrite for_loop_cons.
    apply (gen_sat_bind _ (tail_inv batch_size)); [by apply for_body_sat|].
    intros tail' Htail'.
    apply (gen_sat_bind _ (λ _, True)); [by apply gen_sat_next_row_group|].
    intros _ _. by apply IH.
Qed.

Lemma event_inv_tail (batch_size : Z) (ev : event A) :
  event_inv batch_size ev → tail_inv batch_size (event_tail ev).
Proof. destruct ev as [b tail|tail]; simpl; [by intros [? _]|done]. Qed.

Lemma event_inv_batches {X : Type} (batch_size : Z) (run : gen A X) :
  (0 ≤ batch_size)%Z → Forall (event_inv batch_size) run.1 →
  Forall (λ b, len (label b) = batch_size) (batches run).
Proof.
  intros Hbs. unfold batches. induction 1 as [|ev evs Hev Hevs IH]; simpl; [constructor|].
  destruct ev as [b tail|tail]; simpl in *; [|done].
  constructor; [by apply Hev|done].
Qed.

(** *** Termination

    The fuel the body of the [for] loop gives to the [while] loop is
    enough, whatever the batch size: a positive batch size moves [pos]
    towards the end of column 0, and with a batch size of zero or less the
    slice of the list of feature columns is empty by the second iteration at
    the latest, so that [np.stack] raises. *)

Lemma lift_Ok {X : Type} (r : result X) (x : X) : (lift r : gen A X).2 = Ok x → r = inr x.
Proof. destruct r; simpl; congruence. Qed.

Lemma terminates_yield (b : batch A) tail : terminates (yield b tail).
Proof. done. Qed.

Lemma terminates_raise {Y : Type} (f : ndarray2 A → gen A Y) :
  terminates (x ← lift (np_stack_last ([] : list (list A))); f x).
Proof. done. Qed.

Lemma slicing_loop_terminates_pos (batch_size : Z) rglist tail (fuel : nat) (pos : Z) :
  (0 < batch_size)%Z → (1 ≤ fuel)%nat →
  (len (default [] (rglist !! 0%nat)) - pos < Z.of_nat fuel)%Z →
  terminates (slicing_loop fuel batch_size rglist tail pos).
Proof.
  intros Hbs. revert pos. induction fuel as [|fuel IH]; intros pos Hfuel Hlen; [lia|].
  rewrite slicing_loop_unfold.
  apply terminates_bind; [apply terminates_lift|].
  intros rglist_0 H0%lift_Ok%index_inr. rewrite H0 in Hlen. simpl in Hlen.
  case_decide as Hle; [|apply terminates_ret].
  apply terminates_bind; [apply terminates_lift|]. intros stacked _.
  apply terminates_bind; [apply terminates_yield|]. intros _ _.
  apply IH; [lia|]. rewrite H0. simpl. lia.
Qed.

Lemma slicing_loop_terminates_neg (batch_size : Z) rglist tail (fuel : nat) (pos : Z) :
  (batch_size ≤ 0)%Z → (pos < 0)%Z →
  terminates (slicing_loop (S fuel) batch_size rglist tail pos).
Proof.
  intros Hbs Hpos. rewrite slicing_loop_unfold.
  apply terminates_bind; [apply terminates_lift|]. intros rglist_0 _.
  case_decide as Hle; [|apply terminates_ret].
  rewrite (slice_empty (slice_from rglist 1)); [apply terminates_raise|]. apply slice_index_mono_neg; lia.
Qed.

Lemma slicing_loop_terminates_nonpos (batch_size : Z) rglist tail (fuel : nat) (pos : Z) :
  (batch_size ≤ 0)%Z →
  terminates (slicing_loop (S (S fuel)) batch_size rglist tail pos).
Proof.
  intros Hbs. destruct (decide (pos < 0)%Z) as [Hpos|Hpos].
  { by apply slicing_loop_terminates_neg. }
  rewrite slicing_loop_unfold.
  apply terminates_bind; [apply terminates_lift|]. intros rglist_0 _.
  case_decide as Hle; [|apply terminates_ret].
  destruct (decide (0 ≤ pos + batch_size)%Z) as [Hnext|Hnext].
  - rewrite (slice_empty (slice_from rglist 1)); [apply terminates_raise|]. apply slice_index_mono_nonneg; lia.
  - apply terminates_bind; [apply terminates_lift|]. intros stacked _.
    apply terminates_bind; [apply terminates_yield|]. intros _ _.
    apply slicing_loop_terminates_neg; lia.
Qed.

Lemma slicing_loop_fuel (batch_size : Z) rglist tail (pos : Z) :
  terminates (slicing_loop (loop_fuel rglist pos) batch_size rglist tail pos).
Proof.
  unfold loop_fuel. destruct (decide (0 < batch_size)%Z).
  - apply slicing_loop_terminates_pos; [done|lia..].
  - apply slicing_loop_terminates_nonpos. lia.
Qed.

Lemma for_body_terminates self (batch_size : Z) tail (rgdict : gmap string (list A)) :
  terminates (for_body self batch_size tail rgdict).
Proof.
  unfold for_body.
  apply terminates_bind; [apply terminates_lift|]. intros rglist _.
  apply terminates_bind.
  - destruct tail as [tl|]; [|apply terminates_ret].
    do 3 (apply terminates_bind; [apply terminates_lift|]; intros ? _).
    case_decide; [|apply terminates_ret].
    apply terminates_bind; [apply terminates_lift|]. intros stacked _.
    apply terminates_bind; [apply terminates_yield|]. intros _ _.
    apply terminates_ret.
  - intros [tl | [pos tl]] _; [apply terminates_ret|].
    apply terminates_bind; [apply slicing_loop_fuel|]. intros pos' _.
    apply terminates_bind; [apply terminates_lift|]. intros rglist_0 _.
    case_decide; [|apply terminates_ret].
    apply terminates_bind; [apply terminates_lift|]. intros tl' _.
    apply terminates_ret.
Qed.

Lemma for_loop_terminates self (batch_size : Z) tail
    (reader : list (gmap string (list A))) :
  terminates (for_loop self batch_size tail reader).
Proof.
  revert tail. induction reader as [|rg reader IH]; intros tail; [done|].
  rewrite for_loop_cons.
  apply terminates_bind; [apply for_body_terminates|]. intros tail' _.
  apply terminates_bind; [done|]. intros _ _. apply IH.
Qed.

(** The generator never runs out of fuel: on every finite sequence of row
    groups it either is exhausted normally or raises. *)
Theorem get_batches_terminates self (reader : list (gmap string (list A)))
    (batch_size_arg : option Z) :
  terminates (get_batches self reader batch_size_arg).
Proof. apply for_loop_terminates. Qed.

(** *** A row group too short to complete the tail *)

Lemma extend_tail_short self (batch_size : Z) (tl rglist : list (list A)) (n m : nat) :
  length tl = num_fields self → length rglist = num_fields self →
  columns_of_length n tl → columns_of_length m rglist →
  (Z.of_nat n + Z.of_nat m ≤ batch_size)%Z →
  extend_tail self batch_size tl rglist = inr (zip_with app tl rglist).
Proof.
  intros Hlen_tl Hlen_rg Htl Hrg Hshort. unfold extend_tail.
  apply result_mapM_Forall2, Forall2_same_length_lookup_2.
  { rewrite length_seq, length_zip_with. lia. }
  intros i j c [-> _]%lookup_seq (tl_i & rglist_i & -> & Htl_i & Hrg_i)%lookup_zip_with_Some.
  simpl. unfold index. rewrite Htl_i, Hrg_i. simpl.
  pose proof (Forall_lookup_1 _ _ _ _ Htl Htl_i) as Hlen_t. simpl in Hlen_t.
  pose proof (Forall_lookup_1 _ _ _ _ Hrg Hrg_i) as Hlen_r. simpl in Hlen_r.
  unfold mret, result_mret, np_concatenate. rewrite slice_prefix_all; [done|].
  unfold len. lia.
Qed.

Lemma for_body_short self (batch_size : Z) (tl rglist : list (list A))
    (rgdict : gmap string (list A)) (n m : nat) :
  num_fields self = length (fields self) → 0 < num_fields self →
  length tl = num_fields self → columns_of_length n tl →
  rglist_of self rgdict = inr rglist → columns_of_length m rglist →
  (Z.of_nat n + Z.of_nat m < batch_size)%Z →
  for_body self batch_size (Some tl) rgdict = ([], Ok (Some (zip_with app tl rglist))).
Proof.
  intros Hnf Hpos Hlen_tl Htl Hrg Hcols Hshort.
  pose proof (rglist_of_length _ _ _ Hrg) as Hlen_rg. rewrite <-Hnf in Hlen_rg.
  unfold for_body. rewrite Hrg, lift_bind.
  rewrite (extend_tail_short self batch_size tl rglist n m) by (done || lia).
  destruct tl as [|tl_0 tl]; [simpl in *; lia|].
  destruct rglist as [|rglist_0 rglist]; [simpl in *; lia|].
  apply Forall_cons in Htl as [Hlen_t _]. apply Forall_cons in Hcols as [Hlen_r _].
  simpl. rewrite decide_False; [done|].
  rewrite len_app. unfold len. lia.
Qed.

End stitcher.

(** ** The reader object *)

Lemma PNNDataReader_init_num_fields files (bs : Z) epochs shuffle (seed count cur : Z) :
  let self := PNNDataReader_init files bs epochs shuffle seed count cur in
  num_fields self = length (fields self) ∧ num_fields self = 40.
Proof. done. Qed.

(** The generator reads the schema and the batch size of the reader object
    and nothing else of it. *)
Lemma for_loop_reader_ext {A : Type} (self1 self2 : PNNDataReader) (bs : Z)
    (tail : option (list (list A))) (reader : list (gmap string (list A))) :
  fields self1 = fields self2 → num_fields self1 = num_fields self2 →
  for_loop self1 bs tail reader = for_loop self2 bs tail reader.
Proof.
  destruct self1, self2; simpl. intros -> ->.
  revert tail. induction reader as [|rg reader IH]; intros tail; [done|].
  rewrite !for_loop_cons. apply gen_bind_ext. intros tail'. by rewrite IH.
Qed.

Lemma rglist_of_ext {A : Type} (self : PNNDataReader) (rg1 rg2 : gmap string (list A)) :
  (∀ field, field ∈ fields self → rg1 !! field = rg2 !! field) →
  rglist_of self rg1 = rglist_of self rg2.
Proof.
  unfold rglist_of. induction (fields self) as [|f fs IH]; intros Heq; [done|].
  simpl. rewrite (Heq f) by left. rewrite IH; [done|].
  intros f' Hf'. apply Heq. by right.
Qed.

(** The generator reads the columns of the schema and no other column of a
    row group. *)
Lemma for_loop_agree {A : Type} (self : PNNDataReader) (bs : Z)
    (reader1 reader2 : list (gmap string (list A))) :
  Forall2 (λ rg1 rg2, ∀ field, field ∈ fields self → rg1 !! field = rg2 !! field)
    reader1 reader2 →
  ∀ tail, for_loop self bs tail reader1 = for_loop self bs tail reader2.
Proof.
  induction 1 as [|rg1 rg2 reader1 reader2 Hrg Hagree IH]; intros tail; [done|].
  rewrite !for_loop_cons.
  assert (for_body self bs tail rg1 = for_body self bs tail rg2) as ->.
  { unfold for_body. by rewrite (rglist_of_ext self rg1 rg2). }
  apply gen_bind_ext. intros tail'. by rewrite IH.
Qed.

(** * The claims *)

(** ** Claims that hold *)

(** C4. When a tail of [n] rows exists and the current well-formed row group
    has [m] rows with [n + m < batch_size], the body of the [for] loop yields
    no batch and goes on to the next row group with a tail that holds, in
    every column and in order, the rows of the old tail followed by all the
    rows of the row group. *)
Theorem short_row_group_extends_tail {A : Type} files (bs0 : Z) epochs shuffle
    (seed count cur : Z) (batch_size : Z) (tl rglist : list (list A))
    (rgdict : gmap string (list A)) (n m : nat) :
  let self := PNNDataReader_init files bs0 epochs shuffle seed count cur in
  length tl = num_fields self → columns_of_length n tl →
  rglist_of self rgdict = inr rglist → columns_of_length m rglist →
  (Z.of_nat n + Z.of_nat m < batch_size)%Z →
  for_body self batch_size (Some tl) rgdict = ([], Ok (Some (zip_with app tl rglist))).
Proof.
  intros self Hlen Htl Hrg Hcols Hshort.
  apply (for_body_short self batch_size tl rglist rgdict n m); try done.
  subst self. simpl. lia.
Qed.

Lemma short_row_group_extends_tail_witness :
  for_body (criteo_reader 8) 8 (Some (example_columns 0 2)) (example_row_group 2 3)
  = ([], Ok (Some (zip_with app (example_columns 0 2) (example_columns 2 3)))).
Proof.
  unfold criteo_reader.
  apply (short_row_group_extends_tail ["file:///data/part-0.parquet"] 8 (Some 1%Z) false
           1234 1 0 8 (example_columns 0 2) (example_columns 2 3)
           (example_row_group 2 3) 2 3).
  - reflexivity.
  - vm_compute. repeat constructor.
  - vm_compute. reflexivity.
  - vm_compute. repeat constructor.
  - lia.
Defined.

(** C5. On well-formed row groups the tail buffer invariant holds at every
    yield and at every return to the head of the [for] loop, and for the tail
    that is left when the reader is exhausted: the one variable [tail] holds
    no buffer, or a buffer whose columns have one common length, below
    [batch_size]. *)
Theorem tail_buffer_invariant {A : Type} (self : PNNDataReader)
    (reader : list (gmap string (list A))) (batch_size_arg : option Z) :
  Forall (well_formed self) reader →
  let bs := default (batch_size self) batch_size_arg in
  let run := get_batches self reader batch_size_arg in
  Forall (λ ev, tail_inv bs (event_tail ev)) run.1 ∧
  ∀ tail, run.2 = Ok tail → tail_inv bs tail.
Proof.
  intros Hwf bs run.
  assert (gen_sat (event_inv bs) (tail_inv bs) run) as [Hev Hres].
  { subst bs run. unfold get_batches.
    destruct batch_size_arg; simpl; by apply for_loop_sat. }
  split; [|done]. eapply Forall_impl; [done|]. apply event_inv_tail.
Qed.

Lemma tail_buffer_invariant_witness :
  let run := get_batches (criteo_reader 4) [example_row_group 0 6; example_row_group 6 5] None in
  Forall (λ ev, tail_inv 4 (event_tail ev)) run.1 ∧
  ∀ tail, run.2 = Ok tail → tail_inv 4 tail.
Proof.
  apply (tail_buffer_invariant (criteo_reader 4)
           [example_row_group 0 6; example_row_group 6 5] None).
  repeat apply Forall_cons_2; [well_formed_by_evaluation 6
                              |well_formed_by_evaluation 5
                              |apply Forall_nil_2].
Defined.

(** C10. On well-formed row groups and for a non-negative batch size, every
    batch the generator yields, on the tail-completion path and in the
    slicing loop alike, has a label array of exactly [batch_size]
    elements. *)
Theorem label_has_batch_size {A : Type} (self : PNNDataReader)
    (reader : list (gmap string (list A))) (batch_size_arg : option Z) :
  let bs := default (batch_size self) batch_size_arg in
  (0 ≤ bs)%Z → Forall (well_formed self) reader →
  Forall (λ b, len (label b) = bs) (batches (get_batches self reader batch_size_arg)).
Proof.
  intros bs Hbs Hwf. apply event_inv_batches; [done|].
  assert (gen_sat (event_inv bs) (tail_inv bs) (get_batches self reader batch_size_arg))
    as [Hev _]; [|done].
  subst bs. unfold get_batches.
  destruct batch_size_arg; simpl; by apply for_loop_sat.
Qed.

Lemma label_has_batch_size_witness :
  Forall (λ b, len (label b) = 4%Z)
    (batches (get_batches (criteo_reader 4)
                [example_row_group 0 6; example_row_group 6 5] None)).
Proof.
  apply (label_has_batch_size (criteo_reader 4)
           [example_row_group 0 6; example_row_group 6 5] None).
  - simpl. lia.
  - repeat apply Forall_cons_2; [well_formed_by_evaluation 6
                                |well_formed_by_evaluation 5
                                |apply Forall_nil_2].
Defined.



(** C9. On a reader that delivers no row group the generator is exhausted at
    once: it yields no batch, raises nothing and leaves no tail. *)
Theorem get_batches_empty_reader {A : Type} (self : PNNDataReader)
    (batch_size_arg : option Z) :
  let run := get_batches self ([] : list (gmap string (list A))) batch_size_arg in
  run = ([], Ok None) ∧ batches run = [].
Proof. done. Qed.

(** ** A claim that holds in an amended form *)

(** C6, as stated, fails: with a global batch size of 5 and 2 processes the
    division is inexact and the dataloader is constructed all the same, with
    a batch size of 2 for each process. *)
Lemma make_criteo_dataloader_inexact_not_raised :
  (5 `mod` get_world_size (example_env 2) ≠ 0)%Z ∧
  ¬ raises (make_criteo_dataloader (example_env 2) "/data/train" 5 true) ∧
  ∃ self, make_criteo_dataloader (example_env 2) "/data/train" 5 true = inr self ∧
          batch_size self = 2%Z.
Proof.
  split; [done|]. split; [|by eexists]. intros [e He]. vm_compute in He. discriminate.
Qed.

(** C6, amended. For every global batch size and every world size other than
    zero, exact divisor or not, constructing the dataloader raises nothing:
    the reader is constructed with the floor of the quotient as the batch
    size of each process and the world size as its shard count. *)
Theorem make_criteo_dataloader_floor_division (env : Env) (data_path : string)
    (global_batch_size : Z) (shuffle : bool) :
  get_world_size env ≠ 0%Z →
  ∃ self, make_criteo_dataloader env data_path global_batch_size shuffle = inr self ∧
          batch_size self = (global_batch_size `div` get_world_size env)%Z ∧
          shard_count self = get_world_size env ∧
          cur_shard self = get_rank env.
Proof.
  intros Hws. unfold make_criteo_dataloader, floordiv.
  rewrite decide_False by done. eexists. split; [reflexivity|done].
Qed.

Lemma make_criteo_dataloader_floor_division_witness :
  ∃ self, make_criteo_dataloader (example_env 2) "/data/train" 5 true = inr self ∧
          batch_size self = (5 `div` get_world_size (example_env 2))%Z ∧
          shard_count self = get_world_size (example_env 2) ∧
          cur_shard self = get_rank (example_env 2).
Proof.
  apply (make_criteo_dataloader_floor_division (example_env 2) "/data/train" 5 true).
  simpl. lia.
Defined.

(** ** Claims the slicing loop breaks

    In the [while] loop the features are [rglist[1:][pos : pos + batch_size]]:
    the slice is taken of the list of feature columns, not of each column, as
    the two other places that cut columns do
    ([rglist[i][0 : batch_size - len(tail[i])]] and [rglist[i][pos:]]). A
    batch of the loop therefore stacks the whole columns number [pos] to
    [pos + batch_size] of the feature columns, and [np.stack] raises as soon
    as [pos] reaches the number of feature columns. The four statements below
    evaluate the generator where the claims C1, C2, C3 and C7 fail. *)

Section slicing_loop_defect.
Local Open Scope Z_scope.

(** The example row group of four rows is well formed; its columns and rows. *)
Lemma example_row_group_4 :
  rglist_of (criteo_reader 2) (example_row_group 0 4) = inr (example_columns 0 4) ∧
  columns_of_length 4 (example_columns 0 4) ∧
  length (example_columns 0 4) = 40%nat.
Proof. split; [vm_compute; reflexivity|]. split; [|done]. vm_compute. repeat constructor. Qed.

(** C1 fails. One well-formed row group of 4 rows and a batch size of 2: two
    batches are yielded, as many as the claim says, but the feature array of
    each has the 4 rows of two whole columns instead of 2 rows of the 39
    feature columns, so that the batches do not add up to the input. *)
Theorem exact_multiple_batches_hold_whole_columns :
  let run := get_batches (criteo_reader 2) [example_row_group 0 4] None in
  run.2 = Ok None ∧
  batches run =
    [ Batch [0; 1]
        {| shape := (4%nat, 2%nat);
           rows := [[100; 200]; [101; 201]; [102; 202]; [103; 203]] |};
      Batch [2; 3]
        {| shape := (4%nat, 2%nat);
           rows := [[300; 400]; [301; 401]; [302; 402]; [303; 403]] |} ] ∧
  Forall (λ b, ¬ training_batch 2 39 b) (batches run).
Proof.
  intros run.
  assert (batches run =
    [ Batch [0; 1]
        {| shape := (4%nat, 2%nat);
           rows := [[100; 200]; [101; 201]; [102; 202]; [103; 203]] |};
      Batch [2; 3]
        {| shape := (4%nat, 2%nat);
           rows := [[300; 400]; [301; 401]; [302; 402]; [303; 403]] |} ]) as Hb
    by (vm_compute; reflexivity).
  split; [vm_compute; reflexivity|]. split; [done|].
  rewrite Hb. repeat constructor; intros [_ [=]].
Qed.

(** C2 fails. The first iteration of the loop on the row group of 4 rows,
    with [pos = 0] and a batch size of 2: the label is column 0 cut to the
    rows 0 and 1, and the cursor moves to 2, but the features are the
    feature columns 0 and 1 in full, an array of shape [4, 2] and not
    [2, 39]. *)
Theorem slicing_loop_iteration_stacks_whole_columns :
  slicing_loop 1 2 (example_columns 0 4) None 0 =
    ([Yield (Batch [0; 1]
               {| shape := (4%nat, 2%nat);
                  rows := [[100; 200]; [101; 201]; [102; 202]; [103; 203]] |}) None],
     OutOfFuel) ∧
  slicing_loop 1 2 (example_columns 0 4) None 0 =
    (stacked ← lift (np_stack_last (slice (slice_from (example_columns 0 4) 1) 0 2));
     yield (Batch (slice [0; 1; 2; 3] 0 2) stacked) None;;
     slicing_loop 0 2 (example_columns 0 4) None (0 + 2)) ∧
  slice (slice_from (example_columns 0 4) 1) 0 2 = [[100; 101; 102; 103]; [200; 201; 202; 203]].
Proof. split; [|split]; vm_compute; reflexivity. Qed.

(** C3 fails. In the second batch of the same run the label array holds the
    label values of the input rows 2 and 3, while row 0 of the feature array
    holds values of the input row 0: no input row has the label value 2
    together with the feature values 300 and 400. *)
Theorem second_batch_rows_misaligned :
  let run := get_batches (criteo_reader 2) [example_row_group 0 4] None in
  let input := rows_of (example_columns 0 4) in
  ∃ b, batches run !! 1%nat = Some b ∧
       label b = [2; 3] ∧
       rows (features b) = [[300; 400]; [301; 401]; [302; 402]; [303; 403]] ∧
       ¬ same_input_row input 2 [300; 400] ∧
       ¬ row_aligned input b.
Proof.
  intros run input.
  assert (¬ same_input_row input 2 [300; 400]) as Hrow.
  { unfold same_input_row. apply (bool_decide_eq_false_1 _). vm_compute. reflexivity. }
  eexists. split; [vm_compute; reflexivity|]. simpl.
  do 3 (split; [done|]).
  intros Haligned. apply Hrow. by apply (Haligned 0%nat).
Qed.

(** C7 fails. A single well-formed row group of 2 rows and a batch size of
    2: one batch is yielded and no tail is left, but its feature array has
    the shape [2, 2], the first two feature columns, and not [2, 39]. *)
Theorem single_full_group_features_truncated :
  let run := get_batches (criteo_reader 2) [example_row_group 0 2] None in
  well_formed (criteo_reader 2) (example_row_group 0 2) ∧
  run = ([Yield (Batch [0; 1]
                   {| shape := (2%nat, 2%nat); rows := [[100; 200]; [101; 201]] |}) None;
          NextRowGroup None],
         Ok None) ∧
  Forall (λ b, ¬ training_batch 2 39 b) (batches run).
Proof.
  intros run. split; [well_formed_by_evaluation 2%nat|].
  assert (run = ([Yield (Batch [0; 1]
                   {| shape := (2%nat, 2%nat); rows := [[100; 200]; [101; 201]] |}) None;
          NextRowGroup None],
         Ok None)) as -> by (vm_compute; reflexivity).
  split; [done|]. repeat constructor; intros [_ [=]].
Qed.

(** Past the last feature column the loop does not yield at all: with a
    batch size of 1, a row group of 40 rows gives 39 batches, each with one
    whole column as its features, and then [np.stack] raises. *)
Example slicing_loop_raises_past_last_column :
  let run := get_batches (criteo_reader 1) [example_row_group 0 40] None in
  length (batches run) = 39%nat ∧
  Forall (λ b, shape (features b) = (40%nat, 1%nat)) (batches run) ∧
  run.2 = Raised (ValueError "need at least one array to stack").
Proof.
  intros run. split; [vm_compute; reflexivity|]. split; [|vm_compute; reflexivity].
  apply (bool_decide_eq_true_1 _). vm_compute. reflexivity.
Qed.

End slicing_loop_defect.


(** * Further properties of the stitcher *)

(** ** The labels a run yields *)

Section label_logic.
Context {A : Type}.
Implicit Types (I : list A → Prop) (acc : list A).

Lemma event_labels_app (evs1 evs2 : list (event A)) :
  event_labels (evs1 ++ evs2) = (event_labels evs1 ++ event_labels evs2)%list.
Proof. unfold event_labels. apply bind_app. Qed.

Lemma event_labels_batches {X : Type} (run : gen A X) :
  yielded_labels run = concat (label <$> batches run).
Proof.
  destruct run as [evs o]. unfold yielded_labels, batches, event_labels.
  change ((evs, o).1) with evs.
  induction evs as [|ev evs IH]; [done|]. rewrite bind_cons, IH.
  by destruct ev as [b tail|tail].
Qed.

Lemma gen_trace_ret {X : Type} I (Q : X → list A → Prop) acc (x : X) :
  I acc → Q x acc → gen_trace I Q acc (mret x).
Proof.
  intros HI HQ. unfold gen_trace. simpl. rewrite app_nil_r.
  split; [done|]. by intros y [= <-].
Qed.

Lemma gen_trace_lift {X : Type} I (Q : X → list A → Prop) acc (r : result X) :
  I acc → (∀ x, r = inr x → Q x acc) → gen_trace I Q acc (lift r).
Proof.
  intros HI HQ. unfold gen_trace. destruct r as [e|x]; simpl; rewrite app_nil_r.
  - split; [done|]. intros y [=].
  - split; [done|]. intros y [= <-]. by apply HQ.
Qed.

Lemma gen_trace_yield I (Q : unit → list A → Prop) acc (b : batch A) tail :
  I (acc ++ label b)%list → Q () (acc ++ label b)%list → gen_trace I Q acc (yield b tail).
Proof.
  intros HI HQ. unfold gen_trace. simpl. rewrite app_nil_r.
  split; [done|]. by intros [] _.
Qed.

Lemma gen_trace_next_row_group I (Q : unit → list A → Prop) acc tail :
  I acc → Q () acc → gen_trace I Q acc (next_row_group tail).
Proof.
  intros HI HQ. unfold gen_trace. simpl. rewrite app_nil_r.
  split; [done|]. by intros [] _.
Qed.

Lemma gen_trace_bind {X Y : Type} I (R : X → list A → Prop) (Q : Y → list A → Prop) acc
    (m : gen A X) (f : X → gen A Y) :
  gen_trace I R acc m → (∀ x acc', R x acc' → gen_trace I Q acc' (f x)) →
  gen_trace I Q acc (m ≫= f).
Proof.
  intros [HI HR] Hf. unfold gen_trace, mbind, gen_mbind.
  destruct m as [evs [x| e |]]; simpl in *.
  - destruct (Hf x _ (HR x eq_refl)) as [HI' HQ'].
    destruct (f x) as [evs' o]; simpl in *.
    rewrite event_labels_app, (assoc_L (++)). done.
  - split; [done|]. intros y [=].
  - split; [done|]. intros y [=].
Qed.

Lemma gen_trace_mono {X : Type} I I' (Q Q' : X → list A → Prop) acc (m : gen A X) :
  (∀ ls, I ls → I' ls) → (∀ x ls, Q x ls → Q' x ls) →
  gen_trace I Q acc m → gen_trace I' Q' acc m.
Proof. intros HI HQ [H1 H2]. split; [by apply HI|]. intros x Hx. by apply HQ, H2. Qed.

(** What is known of the result and what is known of the labels combine. *)
Lemma gen_trace_sat {X : Type} P (R : X → Prop) I (Q : X → list A → Prop) acc (m : gen A X) :
  gen_sat P R m → gen_trace I Q acc m → gen_trace I (λ x ls, R x ∧ Q x ls) acc m.
Proof. intros [_ HR] [HI HQ]. split; [done|]. intros x Hx. split; [by apply HR|by apply HQ]. Qed.

End label_logic.

Section label_stream_lemmas.
Context {A : Type}.
Local Open Scope list_scope.
Implicit Types (self : PNNDataReader) (rglist : list (list A)).
Implicit Types (tail : option (list (list A))).

Lemma result_mapM_lookup {X Y : Type} (f : X → result Y) (xs : list X) (ys : list Y)
    (i : nat) (y : Y) :
  result_mapM f xs = inr ys → ys !! i = Some y → ∃ x, xs !! i = Some x ∧ f x = inr y.
Proof.
  revert ys i. induction xs as [|x xs IH]; intros ys i; simpl.
  - by intros [= <-].
  - destruct (f x) as [e|y'] eqn:Hfx; [done|].
    destruct (result_mapM f xs) as [e|ys'] eqn:Hxs; [done|].
    intros [= <-]. destruct i as [|i]; simpl.
    + intros [= <-]. by exists x.
    + intros Hy. by apply (IH ys' i).
Qed.

Lemma slice_take_drop {X : Type} (l : list X) (start stop : Z) :
  (0 ≤ start)%Z → (start ≤ stop)%Z → (stop ≤ len l)%Z →
  slice l start stop = take (Z.to_nat (stop - start)) (drop (Z.to_nat start) l).
Proof.
  intros Hs Hle Hstop. unfold slice, slice_index, len in *.
  repeat case_decide; try lia.
  by rewrite !Z.min_l by lia.
Qed.

Lemma slice_from_drop {X : Type} (l : list X) (start : Z) :
  (0 ≤ start)%Z → slice_from l start = drop (Z.to_nat start) l.
Proof.
  intros Hs. unfold slice_from, slice_index, len.
  case_decide; [lia|].
  destruct (decide (start ≤ Z.of_nat (length l))%Z).
  - by rewrite Z.min_l by lia.
  - rewrite Z.min_r by lia. rewrite !drop_ge; [done|lia..].
Qed.

Lemma prefix_app_take (pre l : list A) (n : nat) : (pre ++ take n l) `prefix_of` (pre ++ l).
Proof. apply prefix_app. exists (drop n l). by rewrite take_drop. Qed.

(** The loop started at [pos], after the first [pos] labels of column 0 have
    been yielded, yields the labels that follow, in order, and stops at a
    position up to which all the labels have been yielded. *)
Lemma slicing_loop_labels (batch_size : Z) rglist tail (rglist_0 pre : list A) (fuel : nat) :
  (0 < batch_size)%Z → rglist !! 0 = Some rglist_0 →
  ∀ pos : Z, (0 ≤ pos)%Z →
  gen_trace (λ ls, ls `prefix_of` pre ++ rglist_0)
    (λ pos' ls, (len rglist_0 < pos' + batch_size)%Z ∧ (0 ≤ pos')%Z ∧
                ls = (pre ++ take (Z.to_nat pos') rglist_0)%list)
    (pre ++ take (Z.to_nat pos) rglist_0) (slicing_loop fuel batch_size rglist tail pos).
Proof.
  intros Hbs H0. induction fuel as [|fuel IH]; intros pos Hpos.
  { split; simpl; [|intros x [=]]. rewrite app_nil_r. apply prefix_app_take. }
  rewrite slicing_loop_unfold.
  apply (gen_trace_bind _
    (λ c ls, c = rglist_0 ∧ ls = (pre ++ take (Z.to_nat pos) rglist_0)%list)).
  { apply gen_trace_lift; [apply prefix_app_take|].
    intros c Hc%index_inr. split; [congruence|done]. }
  intros c acc' [-> ->]. case_decide as Hle.
  - apply (gen_trace_bind _ (λ _ ls, ls = (pre ++ take (Z.to_nat pos) rglist_0)%list)).
    { apply gen_trace_lift; [apply prefix_app_take|done]. }
    intros stacked acc' ->.
    assert ((pre ++ take (Z.to_nat pos) rglist_0)
              ++ label (Batch (slice rglist_0 pos (pos + batch_size)) stacked)
            = pre ++ take (Z.to_nat (pos + batch_size)) rglist_0)%list as Hacc.
    { simpl. rewrite slice_take_drop by lia.
      rewrite <-(assoc_L (++)), take_take_drop. do 2 f_equal. lia. }
    apply (gen_trace_bind _
      (λ _ ls, ls = (pre ++ take (Z.to_nat (pos + batch_size)) rglist_0)%list)).
    { apply gen_trace_yield; rewrite Hacc; [apply prefix_app_take|done]. }
    intros _ acc' ->. apply IH. lia.
  - apply gen_trace_ret; [apply prefix_app_take|]. split; [lia|done].
Qed.

Lemma extend_tail_lookup self (batch_size : Z) (tl rglist tl' : list (list A))
    (i : nat) (c : list A) :
  extend_tail self batch_size tl rglist = inr tl' → tl' !! i = Some c →
  ∃ tl_i rglist_i, tl !! i = Some tl_i ∧ rglist !! i = Some rglist_i ∧
                   c = (tl_i ++ slice rglist_i 0 (batch_size - len tl_i))%list.
Proof.
  intros Hext Hc. destruct (result_mapM_lookup _ _ _ _ _ Hext Hc) as (j & Hj & Hf).
  apply lookup_seq in Hj as [-> _]. simpl in Hf.
  unfold mbind, result_mbind, result_bind, mret, result_mret in Hf.
  destruct (index tl i) as [e|tl_i] eqn:Htl_i; [done|].
  destruct (index rglist i) as [e|rglist_i] eqn:Hrg_i; [done|].
  injection Hf as <-. apply index_inr in Htl_i, Hrg_i. by exists tl_i, rglist_i.
Qed.

Lemma tail_labels_lookup (tl : list (list A)) (tl_0 : list A) :
  tl !! 0 = Some tl_0 → tail_labels (Some tl) = tl_0.
Proof. destruct tl; simpl; congruence. Qed.

(** One row group: the labels yielded for it are the labels of the tail and
    then those of the row group, in order, up to the labels that stay behind
    in the new tail. *)
Lemma for_body_labels self (batch_size : Z) tail (rgdict : gmap string (list A)) acc :
  num_fields self = length (fields self) → (0 < batch_size)%Z →
  tail_inv batch_size tail → well_formed self rgdict →
  gen_trace
    (λ ls, ls `prefix_of` acc ++ tail_labels tail ++ row_group_labels self rgdict)
    (λ tail' ls, ls ++ tail_labels tail' = acc ++ tail_labels tail ++ row_group_labels self rgdict)
    acc (for_body self batch_size tail rgdict).
Proof.
  intros Hnf Hbs Htail (rglist & m & Hrg & Hcols).
  pose proof (rglist_of_length _ _ _ Hrg) as Hlen_rg. rewrite <-Hnf in Hlen_rg.
  unfold for_body, row_group_labels. rewrite Hrg, lift_bind.
  destruct rglist as [|rglist_0 rglist].
  { (* no field at all: [rglist[0]] or [tail[0]] raises before anything is yielded *)
    simpl in Hlen_rg. unfold extend_tail. rewrite <-Hlen_rg.
    split; [|destruct tail as [tl|]; [destruct (index tl 0)|]; simpl; intros x [=]].
    destruct tail as [tl|]; [destruct (index tl 0)|]; simpl; rewrite !app_nil_r;
      first [reflexivity | by apply prefix_app_r]. }
  set (rgl := rglist_0 :: rglist) in *.
  assert (rgl !! 0 = Some rglist_0) as H0 by done.
  pose proof (Forall_lookup_1 _ _ _ _ Hcols H0) as Hlen_0. simpl in Hlen_0.
  set (pre := acc ++ tail_labels tail).
  rewrite (assoc_L (++)). fold pre.
  assert (acc `prefix_of` pre ++ rglist_0) as Hacc.
  { unfold pre. rewrite <-(assoc_L (++)). by apply prefix_app_r. }
  apply (gen_trace_bind _
    (λ c ls, match c with
             | inl tl => ls ++ tail_labels tl = pre ++ rglist_0
             | inr (pos, tl) => tl = None ∧ (0 ≤ pos)%Z ∧
                                ls = pre ++ take (Z.to_nat pos) rglist_0
             end)).
  - destruct tail as [tl|].
    2:{ apply gen_trace_ret; [done|]. unfold pre. simpl. by rewrite !app_nil_r. }
    destruct Htail as (n & Htl & Hn).
    apply (gen_trace_bind _ (λ c ls, tl !! 0 = Some c ∧ ls = acc)).
    { apply gen_trace_lift; [done|]. by intros c Hc%index_inr. }
    intros tl_0 ? [Htl_0 ->].
    pose proof (Forall_lookup_1 _ _ _ _ Htl Htl_0) as Hlen_t. simpl in Hlen_t.
    assert (pre = acc ++ tl_0) as Hpre by (unfold pre; by rewrite (tail_labels_lookup tl tl_0)).
    apply (gen_trace_bind _
      (λ tl' ls, extend_tail self batch_size tl rgl = inr tl' ∧ ls = acc)).
    { by apply gen_trace_lift. }
    intros tl' ? [Hext ->].
    apply (gen_trace_bind _ (λ c ls, tl' !! 0 = Some c ∧ ls = acc)).
    { apply gen_trace_lift; [done|]. by intros c Hc%index_inr. }
    intros tl'_0 ? [Htl'_0 ->].
    destruct (extend_tail_lookup _ _ _ _ _ _ _ Hext Htl'_0) as (t & r & Ht & Hr & ->).
    assert (t = tl_0) as -> by congruence. assert (r = rglist_0) as -> by congruence.
    pose proof (len_slice_prefix rglist_0 (batch_size - len tl_0)) as Hslice.
    case_decide as Hfull.
    + rewrite len_app in Hfull.
      assert (slice rglist_0 0 (batch_size - len tl_0)
              = take (Z.to_nat (batch_size - len tl_0)) rglist_0) as Hcut.
      { rewrite slice_take_drop; unfold len in *; [|lia..]. simpl. f_equal. lia. }
      rewrite Hcut.
      apply (gen_trace_bind _ (λ _ ls, ls = acc)); [by apply gen_trace_lift|].
      intros stacked ? ->.
      apply (gen_trace_bind _
        (λ _ ls, ls = pre ++ take (Z.to_nat (batch_size - len tl_0)) rglist_0)).
      { simpl. rewrite Hpre.
        apply gen_trace_yield; simpl; rewrite (assoc_L (++)); [apply prefix_app_take|done]. }
      intros _ ? ->. apply gen_trace_ret; [apply prefix_app_take|].
      split; [done|]. split; [unfold len; lia|done].
    + apply gen_trace_ret; [done|].
      rewrite (tail_labels_lookup _ _ Htl'_0), Hpre, <-(assoc_L (++)).
      do 2 f_equal. apply slice_prefix_all.
      rewrite len_app in Hfull. unfold len in *. lia.
  - intros [tl | [pos tl]] acc'; [intros Heq; by apply gen_trace_ret; [exists (tail_labels tl)|]|].
    intros (-> & Hpos & ->).
    eapply gen_trace_bind; [by apply (slicing_loop_labels _ _ _ rglist_0 pre)|].
    intros pos' acc' (Hexit & Hpos' & ->).
    apply (gen_trace_bind _ (λ c ls, c = rglist_0 ∧ ls = pre ++ take (Z.to_nat pos') rglist_0)).
    { apply gen_trace_lift; [apply prefix_app_take|]. intros c Hc%index_inr.
      split; [congruence|done]. }
    intros c ? [-> ->]. case_decide as Hne.
    + apply (gen_trace_bind _
        (λ tl ls, tl !! 0 = Some (slice_from rglist_0 pos') ∧
                  ls = pre ++ take (Z.to_nat pos') rglist_0)).
      * apply gen_trace_lift; [apply prefix_app_take|]. intros tl Htl. split; [|done].
        pose proof (result_mapM_length _ _ _ Htl) as Hlen_tl. rewrite length_seq in Hlen_tl.
        destruct tl as [|t tl]; [simpl in *; lia|].
        destruct (result_mapM_lookup _ _ _ 0 t Htl eq_refl) as (j & Hj & Hf).
        apply lookup_seq in Hj as [-> _]. by injection Hf as <-.
      * intros tl ? [Htl ->]. apply gen_trace_ret; [apply prefix_app_take|].
        rewrite (tail_labels_lookup _ _ Htl), slice_from_drop by done.
        by rewrite <-(assoc_L (++)), take_drop.
    + apply gen_trace_ret; [apply prefix_app_take|]. simpl. rewrite app_nil_r.
      f_equal. apply take_ge. unfold len in Hne. lia.
Qed.

End label_stream_lemmas.

Section label_stream_theorems.
Context {A : Type}.
Local Open Scope list_scope.
Implicit Types (self : PNNDataReader) (tail : option (list (list A))).

Lemma for_loop_labels self (batch_size : Z) (reader : list (gmap string (list A))) :
  num_fields self = length (fields self) → (0 < batch_size)%Z →
  Forall (well_formed self) reader →
  ∀ tail acc, tail_inv batch_size tail →
  gen_trace
    (λ ls, ls `prefix_of` acc ++ tail_labels tail ++ concat (row_group_labels self <$> reader))
    (λ tail' ls, tail_inv batch_size tail' ∧
                 ls ++ tail_labels tail'
                 = acc ++ tail_labels tail ++ concat (row_group_labels self <$> reader))
    acc (for_loop self batch_size tail reader).
Proof.
  intros Hnf Hbs Hwf. induction Hwf as [|rg reader Hrg Hwf IH]; intros tail acc Htail.
  { apply gen_trace_ret; simpl; rewrite app_nil_r; [by apply prefix_app_r|done]. }
  rewrite for_loop_cons, fmap_cons. cbn [concat].
  set (rest := concat (row_group_labels self <$> reader)) in *.
  apply (gen_trace_bind _
    (λ tail' ls, tail_inv batch_size tail' ∧
                 ls ++ tail_labels tail' = acc ++ tail_labels tail ++ row_group_labels self rg)).
  { eapply gen_trace_mono;
      [| |apply (gen_trace_sat _ _ _ _ _ _ (for_body_sat self batch_size tail rg Htail Hrg)
                   (for_body_labels self batch_size tail rg acc Hnf Hbs Htail Hrg))].
    - intros ls Hls. rewrite !(assoc_L (++)). apply prefix_app_r.
      by rewrite <-!(assoc_L (++)).
    - done. }
  intros tail' acc' [Htail' Hacc'].
  apply (gen_trace_bind _ (λ _ ls, ls = acc')).
  { apply gen_trace_next_row_group; [|done].
    rewrite !(assoc_L (++)). apply prefix_app_r. rewrite <-!(assoc_L (++)), <-Hacc'.
    by apply prefix_app_r. }
  intros _ ? ->.
  replace (acc ++ tail_labels tail ++ row_group_labels self rg ++ rest)
    with (acc' ++ tail_labels tail' ++ rest).
  { by apply IH. }
  by rewrite !(assoc_L (++)), Hacc', <-!(assoc_L (++)).
Qed.

Lemma tail_inv_labels (batch_size : Z) tail :
  (0 < batch_size)%Z → tail_inv batch_size tail → (len (tail_labels tail) < batch_size)%Z.
Proof.
  intros Hbs Htail. destruct tail as [[|tail_0 tl]|]; simpl; [done| |done].
  destruct Htail as (n & Hcols & Hn). apply Forall_cons in Hcols as [Hlen _].
  unfold len. lia.
Qed.

Lemma len_concat_labels (batch_size : Z) (bs : list (batch A)) :
  Forall (λ b, len (label b) = batch_size) bs →
  len (concat (label <$> bs)) = (Z.of_nat (length bs) * batch_size)%Z.
Proof.
  induction 1 as [|b bs Hb Hbs IH]; [done|].
  rewrite fmap_cons. cbn [concat]. rewrite len_app, IH, Hb. simpl length. lia.
Qed.

End label_stream_theorems.

(** X1. Labels are neither lost, repeated nor reordered. On well-formed row
    groups and with a positive batch size, the labels of the batches yielded,
    taken in order, are at any point a prefix of the labels of the row groups
    in arrival order; when the reader is exhausted they are all the labels but
    those of the tail that is left. *)
Theorem labels_are_conserved {A : Type} (self : PNNDataReader)
    (reader : list (gmap string (list A))) (batch_size_arg : option Z) :
  let bs := default (batch_size self) batch_size_arg in
  let run := get_batches self reader batch_size_arg in
  let input := concat (row_group_labels self <$> reader) in
  num_fields self = length (fields self) → (0 < bs)%Z →
  Forall (well_formed self) reader →
  yielded_labels run `prefix_of` input ∧
  ∀ tail, run.2 = Ok tail → (yielded_labels run ++ tail_labels tail)%list = input.
Proof.
  intros bs run input Hnf Hbs Hwf.
  destruct (for_loop_labels self bs reader Hnf Hbs Hwf None [] I) as [Hpre Hok].
  assert (run = for_loop self bs None reader) as -> by (by destruct batch_size_arg).
  split; [done|]. intros tail Htail. by apply Hok.
Qed.

Lemma labels_are_conserved_witness :
  let run := get_batches (criteo_reader 4) [example_row_group 0 6; example_row_group 6 5] None in
  let input := concat (row_group_labels (criteo_reader 4)
                         <$> [example_row_group 0 6; example_row_group 6 5]) in
  yielded_labels run `prefix_of` input ∧
  ∀ tail, run.2 = Ok tail → (yielded_labels run ++ tail_labels tail)%list = input.
Proof.
  apply (labels_are_conserved (criteo_reader 4)
           [example_row_group 0 6; example_row_group 6 5] None).
  - reflexivity.
  - simpl. lia.
  - repeat apply Forall_cons_2; [well_formed_by_evaluation 6
                                |well_formed_by_evaluation 5
                                |apply Forall_nil_2].
Defined.

(** X2. The number of batches. On well-formed row groups and with a positive
    batch size, a run that exhausts the reader has yielded as many batches as
    [batch_size] goes into the total number of rows, and the tail it leaves
    behind holds the remainder. *)
Theorem batch_count_is_quotient {A : Type} (self : PNNDataReader)
    (reader : list (gmap string (list A))) (batch_size_arg : option Z)
    (tail : option (list (list A))) :
  let bs := default (batch_size self) batch_size_arg in
  let run := get_batches self reader batch_size_arg in
  let total_rows := len (concat (row_group_labels self <$> reader)) in
  num_fields self = length (fields self) → (0 < bs)%Z →
  Forall (well_formed self) reader →
  run.2 = Ok tail →
  Z.of_nat (length (batches run)) = (total_rows `div` bs)%Z ∧
  len (tail_labels tail) = (total_rows `mod` bs)%Z.
Proof.
  intros bs run total_rows Hnf Hbs Hwf Hok.
  destruct (for_loop_labels self bs reader Hnf Hbs Hwf None [] I) as [_ Hlabels].
  pose proof (for_loop_sat self bs None reader I Hwf) as [Hev _].
  assert (run = for_loop self bs None reader) as Hrun by (by destruct batch_size_arg).
  rewrite <-Hrun in Hlabels, Hev.
  destruct (Hlabels tail Hok) as [Htail Heq]. simpl in Heq.
  apply (f_equal len) in Heq. rewrite len_app in Heq.
  change (event_labels run.1) with (yielded_labels run) in Heq.
  rewrite event_labels_batches in Heq.
  rewrite (len_concat_labels bs) in Heq by (apply event_inv_batches; [lia|done]).
  pose proof (tail_inv_labels bs tail Hbs Htail) as Hlt.
  pose proof (len_nonneg (tail_labels tail)) as Hge.
  fold total_rows in Heq.
  apply (Z.div_mod_unique bs).
  - left. lia.
  - left. apply Z.mod_pos_bound. lia.
  - rewrite <-Z.div_mod by lia. lia.
Qed.

Lemma batch_count_is_quotient_witness :
  let run := get_batches (criteo_reader 4) [example_row_group 0 6; example_row_group 6 5] None in
  let total_rows := len (concat (row_group_labels (criteo_reader 4)
                                   <$> [example_row_group 0 6; example_row_group 6 5])) in
  Z.of_nat (length (batches run)) = (total_rows `div` 4)%Z ∧
  len (tail_labels (Some (example_columns 8 3))) = (total_rows `mod` 4)%Z.
Proof.
  apply (batch_count_is_quotient (criteo_reader 4)
           [example_row_group 0 6; example_row_group 6 5] None (Some (example_columns 8 3))).
  - reflexivity.
  - simpl. lia.
  - repeat apply Forall_cons_2; [well_formed_by_evaluation 6
                                |well_formed_by_evaluation 5
                                |apply Forall_nil_2].
  - vm_compute. reflexivity.
Defined.

(** ** One row group at a time *)

Section one_row_group.
Context {A : Type}.
Local Open Scope list_scope.
Implicit Types (self : PNNDataReader) (rglist : list (list A)).

Lemma ret_bind {X Y : Type} (x : X) (f : X → gen A Y) : (mret x ≫= f) = f x.
Proof. unfold mbind, gen_mbind, mret, gen_mret. simpl. by destruct (f x). Qed.

Lemma raise_bind {X Y : Type} (e : exn) (f : X → gen A Y) :
  (lift (inl e) ≫= f) = ([], Raised e).
Proof. done. Qed.

Lemma yield_bind {Y : Type} (b : batch A) tail (k : gen A Y) :
  (yield b tail;; k) = (Yield b tail :: k.1, k.2).
Proof. unfold mbind, gen_mbind, yield. simpl. by destruct k. Qed.

Lemma bind_first_event {X Y : Type} (m : gen A X) (f : X → gen A Y) (ev : event A) :
  m.1 !! 0 = Some ev → (m ≫= f).1 !! 0 = Some ev.
Proof.
  unfold mbind, gen_mbind. destruct m as [[|ev' evs] [x| e |]]; simpl; try done.
  by destruct (f x).
Qed.

(** [np.stack] of columns of one length: the rows of the columns. *)
Lemma np_stack_last_columns (columns : list (list A)) (n : nat) :
  columns ≠ [] → columns_of_length n columns →
  np_stack_last columns = inr {| shape := (n, length columns); rows := rows_of columns |}.
Proof.
  intros Hne Hcols. destruct columns as [|a0 columns]; [done|]. unfold np_stack_last.
  pose proof Hcols as [Hlen_0 _]%Forall_cons.
  rewrite decide_True.
  - unfold rows_of. simpl. by rewrite Hlen_0.
  - eapply Forall_impl; [done|]. simpl. lia.
Qed.

(** [[rglist[i][pos:] for i in range(self.num_fields)]] *)
Lemma columns_from (self : PNNDataReader) rglist (pos : Z) :
  length rglist = num_fields self → (0 ≤ pos)%Z →
  result_mapM (λ i, rglist_i ← index rglist i; mret (slice_from rglist_i pos))
    (seq 0 (num_fields self))
  = inr (drop (Z.to_nat pos) <$> rglist).
Proof.
  intros Hlen Hpos. apply result_mapM_Forall2, Forall2_same_length_lookup_2.
  { by rewrite length_seq, length_fmap. }
  intros i j c [-> _]%lookup_seq Hc. simpl.
  rewrite list_lookup_fmap in Hc. unfold index.
  destruct (rglist !! i) as [rglist_i|]; [|done]. simpl in *.
  injection Hc as <-. unfold mret, result_mret. by rewrite slice_from_drop.
Qed.

Lemma rglist_of_present self (rgdict : gmap string (list A)) :
  Forall (λ field, is_Some (rgdict !! field)) (fields self) →
  ∃ rglist, rglist_of self rgdict = inr rglist ∧ length rglist = length (fields self).
Proof.
  unfold rglist_of. induction 1 as [|field fs [c Hc] Hfs (rglist & IH & Hlen)]; simpl.
  - by exists [].
  - rewrite Hc, IH. exists (c :: rglist). by rewrite <-Hlen.
Qed.

(** A row group that lacks a field of the schema: [rgdict[field]] raises
    for the first such field. *)
Lemma rglist_of_missing self (rgdict : gmap string (list A)) (present rest : list string)
    (field : string) :
  fields self = present ++ field :: rest →
  Forall (λ f, is_Some (rgdict !! f)) present → rgdict !! field = None →
  rglist_of self rgdict = inl (KeyError field).
Proof.
  unfold rglist_of. intros -> Hpresent Hfield.
  induction Hpresent as [|f fs [c Hc] Hfs IH]; simpl.
  - by rewrite Hfield.
  - by rewrite Hc, IH.
Qed.

Lemma pair_bind {X Y : Type} (evs : list (event A)) (x : X) (f : X → gen A Y) :
  ((evs, Ok x) ≫= f) = (evs ++ (f x).1, (f x).2).
Proof. unfold mbind, gen_mbind. simpl. by destruct (f x). Qed.

Lemma index_0 {X : Type} (x : X) (l : list X) : index (x :: l) 0 = inr x.
Proof. done. Qed.

Lemma extend_tail_take self (batch_size : Z) (tl rglist : list (list A)) (n m : nat) :
  length tl = num_fields self → length rglist = num_fields self →
  columns_of_length n tl → columns_of_length m rglist →
  (Z.of_nat n ≤ batch_size)%Z → (batch_size ≤ Z.of_nat n + Z.of_nat m)%Z →
  extend_tail self batch_size tl rglist
  = inr (zip_with (λ t r, t ++ take (Z.to_nat (batch_size - Z.of_nat n)) r) tl rglist).
Proof.
  intros Hlen_tl Hlen_rg Htl Hrg Hn Hm. unfold extend_tail.
  apply result_mapM_Forall2, Forall2_same_length_lookup_2.
  { rewrite length_seq, length_zip_with. lia. }
  intros i j c [-> _]%lookup_seq (tl_i & rglist_i & -> & Htl_i & Hrg_i)%lookup_zip_with_Some.
  simpl. unfold index. rewrite Htl_i, Hrg_i. simpl.
  pose proof (Forall_lookup_1 _ _ _ _ Htl Htl_i) as Hlen_t. simpl in Hlen_t.
  pose proof (Forall_lookup_1 _ _ _ _ Hrg Hrg_i) as Hlen_r. simpl in Hlen_r.
  unfold mret, result_mret, np_concatenate.
  rewrite slice_take_drop; unfold len; [|lia..]. simpl. do 3 f_equal. lia.
Qed.

(** The first iteration of the loop when the batch size is at least the
    number of feature columns: all the feature columns are stacked, whole. *)
Lemma slicing_loop_first_wide (fuel : nat) (batch_size : Z) (rglist_0 : list A)
    (feature_columns : list (list A)) tail (m : nat) :
  feature_columns ≠ [] → columns_of_length m (rglist_0 :: feature_columns) →
  (Z.of_nat (length feature_columns) ≤ batch_size)%Z → (batch_size ≤ Z.of_nat m)%Z →
  slicing_loop (S fuel) batch_size (rglist_0 :: feature_columns) tail 0 =
    (yield (Batch (take (Z.to_nat batch_size) rglist_0)
              {| shape := (m, length feature_columns); rows := rows_of feature_columns |}) tail;;
     slicing_loop fuel batch_size (rglist_0 :: feature_columns) tail batch_size).
Proof.
  intros Hne [Hlen_0 Hcols]%Forall_cons Hwide Hrows.
  rewrite slicing_loop_unfold, index_0, lift_bind, Z.add_0_l.
  rewrite decide_True by (unfold len; lia).
  rewrite slice_from_1. simpl drop.
  rewrite (slice_prefix_all feature_columns) by done.
  rewrite (np_stack_last_columns _ m), lift_bind by done.
  rewrite slice_take_drop; unfold len; [|lia..]. simpl drop. by rewrite Z.sub_0_r.
Qed.

(** An iteration of the loop at or past the last feature column, with rows
    left for a batch: nothing is left to stack. *)
Lemma slicing_loop_past_last_column (fuel : nat) (batch_size pos : Z) (rglist_0 : list A)
    (feature_columns : list (list A)) tail :
  (Z.of_nat (length feature_columns) ≤ pos)%Z → (0 ≤ batch_size)%Z →
  (pos + batch_size ≤ len rglist_0)%Z →
  slicing_loop (S fuel) batch_size (rglist_0 :: feature_columns) tail pos =
    ([], Raised (ValueError "need at least one array to stack")).
Proof.
  intros Hpos Hbs Hle.
  rewrite slicing_loop_unfold, index_0, lift_bind, decide_True by done.
  rewrite slice_from_1. simpl drop.
  rewrite (slice_empty feature_columns); [done|].
  unfold slice_index, len. repeat case_decide; lia.
Qed.

Lemma for_body_no_tail_short self (batch_size : Z) (rgdict : gmap string (list A))
    rglist (m : nat) :
  num_fields self = length (fields self) → 0 < num_fields self →
  rglist_of self rgdict = inr rglist → columns_of_length m rglist →
  (Z.of_nat m < batch_size)%Z →
  for_body self batch_size None rgdict
  = ([], Ok (if decide (m = 0) then None else Some rglist)).
Proof.
  intros Hnf Hpos Hrg Hcols Hshort.
  pose proof (rglist_of_length _ _ _ Hrg) as Hlen_rg. rewrite <-Hnf in Hlen_rg.
  unfold for_body. rewrite Hrg, lift_bind, ret_bind. unfold loop_fuel.
  rewrite slicing_loop_unfold.
  destruct rglist as [|rglist_0 rglist]; [simpl in *; lia|].
  pose proof Hcols as [Hlen_0 _]%Forall_cons.
  rewrite !index_0, lift_bind, decide_False by (unfold len; lia).
  rewrite ret_bind, lift_bind.
  destruct (decide (m = 0)) as [->|Hm].
  - by rewrite decide_False by (unfold len; lia).
  - rewrite decide_True by (unfold len; lia).
    rewrite columns_from, lift_bind by done.
    change (drop (Z.to_nat 0)) with (@id (list A)). by rewrite list_fmap_id.
Qed.

Lemma for_body_completes_tail self (batch_size : Z) (tl rglist : list (list A))
    (rgdict : gmap string (list A)) (n m : nat) :
  num_fields self = length (fields self) → (2 ≤ num_fields self)%nat →
  length tl = num_fields self → columns_of_length n tl →
  rglist_of self rgdict = inr rglist → columns_of_length m rglist →
  (Z.of_nat n < batch_size)%Z → (batch_size ≤ Z.of_nat n + Z.of_nat m)%Z →
  let tl' := zip_with (λ t r, t ++ take (Z.to_nat (batch_size - Z.of_nat n)) r) tl rglist in
  (for_body self batch_size (Some tl) rgdict).1 !! 0
  = Some (Yield (Batch (tail_labels (Some tl'))
                   {| shape := (Z.to_nat batch_size, num_fields self - 1);
                      rows := rows_of (drop 1 tl') |}) None).
Proof.
  intros Hnf Hpos Hlen_tl Htl Hrg Hcols Hn Hm tl'.
  pose proof (rglist_of_length _ _ _ Hrg) as Hlen_rg. rewrite <-Hnf in Hlen_rg.
  assert (columns_of_length (Z.to_nat batch_size) tl') as Htl'.
  { apply Forall_forall. intros c (t & r & -> & Ht & Hr)%elem_of_zip_with.
    apply (proj1 (Forall_forall _ _) Htl) in Ht.
    apply (proj1 (Forall_forall _ _) Hcols) in Hr.
    rewrite length_app, length_take. lia. }
  assert (length tl' = num_fields self) as Hlen_tl'.
  { unfold tl'. rewrite length_zip_with. lia. }
  unfold for_body. rewrite Hrg, lift_bind. apply bind_first_event.
  rewrite (extend_tail_take self batch_size tl rglist n m) by (done || lia).
  fold tl'.
  destruct tl as [|tl_0 tl]; [simpl in *; lia|].
  destruct tl' as [|tl'_0 tl'_rest] eqn:Heq; [simpl in *; lia|].
  apply Forall_cons in Htl' as [Hlen_0 Hrest].
  rewrite index_0, !lift_bind. cbv beta.
  rewrite index_0, lift_bind, decide_True by (unfold len; lia).
  rewrite slice_from_1. simpl drop.
  rewrite (np_stack_last_columns _ (Z.to_nat batch_size)), lift_bind, yield_bind.
  - simpl in *. repeat f_equal. rewrite drop_0. lia.
  - destruct tl'_rest; [simpl in *; lia|done].
  - done.
Qed.

End one_row_group.

(** ** Rows and columns *)

Section rows.
Context {A : Type}.
Local Open Scope list_scope.
Local Open Scope nat_scope.
Implicit Types (columns : list (list A)).

Lemma rows_of_lookup columns (n i : nat) :
  columns ≠ [] → columns_of_length n columns →
  rows_of columns !! i = if decide (i < n) then Some (omap (λ c, c !! i) columns) else None.
Proof.
  intros Hne Hcols. destruct columns as [|c0 columns]; [done|].
  pose proof Hcols as [Hlen_0 _]%Forall_cons.
  unfold rows_of. simpl head. simpl default. rewrite Hlen_0, list_lookup_fmap.
  case_decide as Hi.
  - by rewrite lookup_seq_lt.
  - by rewrite lookup_seq_ge by lia.
Qed.

Lemma length_rows_of columns (n : nat) :
  columns ≠ [] → columns_of_length n columns → length (rows_of columns) = n.
Proof.
  intros Hne Hcols. destruct columns as [|c0 columns]; [done|].
  pose proof Hcols as [Hlen_0 _]%Forall_cons.
  unfold rows_of. simpl. by rewrite length_fmap, length_seq.
Qed.

(** Row [i] of columns that are each a column of [xs] followed by the first
    [k] elements of the column of [ys] beside it. *)
Lemma omap_lookup_zip_app (xs ys : list (list A)) (n k i : nat) :
  length xs = length ys → columns_of_length n xs →
  omap (λ c, c !! i) (zip_with (λ t r, t ++ take k r) xs ys)
  = if decide (i < n) then omap (λ c, c !! i) xs
    else omap (λ c, take k c !! (i - n)) ys.
Proof.
  intros Hlen Hxs. revert ys Hlen.
  induction Hxs as [|x xs Hx Hxs IH]; intros [|y ys] Hlen; simpl in *; try lia.
  { by case_decide. }
  rewrite IH by lia. case_decide as Hi.
  - by rewrite lookup_app_l by lia.
  - by rewrite lookup_app_r, Hx by lia.
Qed.

Lemma omap_lookup_take (ys : list (list A)) (k j : nat) :
  j < k → omap (λ c, take k c !! j) ys = omap (λ c, c !! j) ys.
Proof.
  intros Hj. induction ys as [|y ys IH]; [done|].
  change (omap (λ c, take k c !! j) (y :: ys))
    with (match take k y !! j with
          | Some a => a :: omap (λ c, take k c !! j) ys
          | None => omap (λ c, take k c !! j) ys
          end).
  by rewrite IH, lookup_take_lt.
Qed.

(** The rows of columns extended column by column are the rows of the first
    columns followed by the first rows of the second. *)
Lemma rows_of_zip_app (xs ys : list (list A)) (n m k : nat) :
  xs ≠ [] → length xs = length ys →
  columns_of_length n xs → columns_of_length m ys → k ≤ m →
  rows_of (zip_with (λ t r, t ++ take k r) xs ys) = rows_of xs ++ take k (rows_of ys).
Proof.
  intros Hne Hlen Hxs Hys Hk.
  assert (ys ≠ []) as Hne_ys by (destruct xs, ys; simpl in *; done || lia).
  assert (zip_with (λ t r, t ++ take k r) xs ys ≠ []) as Hne_zip.
  { destruct xs, ys; simpl in *; done || lia. }
  assert (columns_of_length (n + k) (zip_with (λ t r, t ++ take k r) xs ys)) as Hzip.
  { apply Forall_forall. intros c (t & r & -> & Ht & Hr)%elem_of_zip_with.
    apply (proj1 (Forall_forall _ _) Hxs) in Ht.
    apply (proj1 (Forall_forall _ _) Hys) in Hr.
    rewrite length_app, length_take. lia. }
  apply list_eq. intros i.
  rewrite (rows_of_lookup _ (n + k)) by done.
  destruct (decide (i < n)) as [Hi|Hi].
  - rewrite lookup_app_l by (rewrite (length_rows_of _ n); done || lia).
    rewrite (rows_of_lookup _ n), !decide_True by (done || lia).
    by rewrite (omap_lookup_zip_app _ _ n), decide_True.
  - rewrite lookup_app_r by (rewrite (length_rows_of _ n); done || lia).
    rewrite (length_rows_of _ n) by done.
    destruct (decide (i < n + k)) as [Hik|Hik].
    + rewrite lookup_take_lt by lia.
      rewrite (rows_of_lookup _ m), decide_True by (done || lia).
      rewrite (omap_lookup_zip_app _ _ n), decide_False by done.
      by rewrite omap_lookup_take by lia.
    + by rewrite lookup_take_ge by lia.
Qed.

End rows.

(** ** What one row group gives *)

Section one_row_group_theorems.
Local Open Scope list_scope.

(** X3. Completing the tail gives a well-shaped batch. When a tail of [n]
    rows exists and a well-formed row group brings the [batch_size - n] rows
    that are missing, the first thing the generator yields is a batch of
    [batch_size] rows over the 39 feature columns: the rows of the tail
    followed by the first [batch_size - n] rows of the row group, labels and
    features alike; the tail is cleared before the batch is yielded. *)
Theorem tail_completion_yields_training_batch {A : Type} files (bs0 : Z) epochs shuffle
    (seed count cur : Z) (batch_size : Z) (tl_0 rglist_0 : list A)
    (tl_features feature_columns : list (list A))
    (rgdict : gmap string (list A)) (n m : nat) :
  let self := PNNDataReader_init files bs0 epochs shuffle seed count cur in
  let k := Z.to_nat (batch_size - Z.of_nat n) in
  let b := Batch (tl_0 ++ take k rglist_0)
             {| shape := (Z.to_nat batch_size, 39);
                rows := rows_of tl_features ++ take k (rows_of feature_columns) |} in
  length (tl_0 :: tl_features) = num_fields self →
  columns_of_length n (tl_0 :: tl_features) →
  rglist_of self rgdict = inr (rglist_0 :: feature_columns) →
  columns_of_length m (rglist_0 :: feature_columns) →
  (Z.of_nat n < batch_size)%Z → (batch_size ≤ Z.of_nat n + Z.of_nat m)%Z →
  (for_body self batch_size (Some (tl_0 :: tl_features)) rgdict).1 !! 0 = Some (Yield b None) ∧
  training_batch batch_size 39 b.
Proof.
  intros self k b Hlen_tl Htl Hrg Hcols Hn Hm.
  pose proof (rglist_of_length _ _ _ Hrg) as Hlen_rg.
  pose proof Htl as [Hlen_t0 Htl_f]%Forall_cons.
  pose proof Hcols as [Hlen_r0 Hcols_f]%Forall_cons.
  assert (b = Batch (tail_labels (Some (zip_with (λ t r, t ++ take k r)
                                         (tl_0 :: tl_features) (rglist_0 :: feature_columns))))
                {| shape := (Z.to_nat batch_size, num_fields self - 1);
                   rows := rows_of (drop 1 (zip_with (λ t r, t ++ take k r)
                                     (tl_0 :: tl_features) (rglist_0 :: feature_columns))) |})
    as Hb.
  { subst b. simpl. rewrite drop_0. do 3 f_equal. symmetry.
    apply (rows_of_zip_app _ _ n m); simpl in *; [|lia|done|done|lia].
    destruct tl_features; [simpl in *; lia|done]. }
  split.
  - rewrite Hb. apply (for_body_completes_tail self batch_size _ _ rgdict n m); try done.
    subst self. simpl. lia.
  - split; [|done]. simpl. rewrite len_app. unfold len. rewrite length_take. lia.
Qed.

(** X4. A row group too short for a batch becomes the tail. When no tail
    exists and a well-formed row group has fewer rows than [batch_size],
    nothing is yielded and the whole row group is kept as the tail; a row
    group without rows leaves no tail. *)
Theorem short_row_group_becomes_tail {A : Type} files (bs0 : Z) epochs shuffle
    (seed count cur : Z) (batch_size : Z) (rglist : list (list A))
    (rgdict : gmap string (list A)) (m : nat) :
  let self := PNNDataReader_init files bs0 epochs shuffle seed count cur in
  rglist_of self rgdict = inr rglist → columns_of_length m rglist →
  (Z.of_nat m < batch_size)%Z →
  for_body self batch_size None rgdict
  = ([], Ok (if decide (m = 0) then None else Some rglist)).
Proof.
  intros self Hrg Hcols Hshort.
  apply (for_body_no_tail_short self batch_size rgdict rglist m); try done.
  subst self. simpl. lia.
Qed.

(** X5. A row group that lacks a field of the schema raises [KeyError] for
    the first field it lacks, in schema order, before anything is yielded for
    it, whatever the tail holds. *)
Theorem missing_field_raises_key_error {A : Type} (self : PNNDataReader) (batch_size : Z)
    (tail : option (list (list A))) (rgdict : gmap string (list A))
    (present rest : list string) (field : string) :
  fields self = present ++ field :: rest →
  Forall (λ f, is_Some (rgdict !! f)) present → rgdict !! field = None →
  for_body self batch_size tail rgdict = ([], Raised (KeyError field)).
Proof.
  intros Hfields Hpresent Hfield. unfold for_body.
  by rewrite (rglist_of_missing self rgdict present rest field).
Qed.

Lemma tail_completion_yields_training_batch_witness :
  let b := Batch ([4; 5] ++ take 2 [6; 7; 8; 9; 10])%Z
             {| shape := (4, 39);
                rows := rows_of (drop 1 (example_columns 4 2))
                        ++ take 2 (rows_of (drop 1 (example_columns 6 5))) |} in
  (for_body (criteo_reader 4) 4 (Some ([4; 5]%Z :: drop 1 (example_columns 4 2)))
     (example_row_group 6 5)).1 !! 0 = Some (Yield b None) ∧
  training_batch 4 39 b.
Proof.
  unfold criteo_reader.
  apply (tail_completion_yields_training_batch ["file:///data/part-0.parquet"] 4 (Some 1%Z)
           false 1234 1 0 4 [4; 5]%Z [6; 7; 8; 9; 10]%Z (drop 1 (example_columns 4 2))
           (drop 1 (example_columns 6 5)) (example_row_group 6 5) 2 5).
  - reflexivity.
  - vm_compute. repeat constructor.
  - vm_compute. reflexivity.
  - vm_compute. repeat constructor.
  - lia.
  - lia.
Defined.

Lemma short_row_group_becomes_tail_witness :
  for_body (criteo_reader 4) 4 None (example_row_group 0 3)
  = ([], Ok (if decide (3 = 0) then None else Some (example_columns 0 3))).
Proof.
  unfold criteo_reader.
  apply (short_row_group_becomes_tail ["file:///data/part-0.parquet"] 4 (Some 1%Z)
           false 1234 1 0 4 (example_columns 0 3) (example_row_group 0 3) 3).
  - vm_compute. reflexivity.
  - vm_compute. repeat constructor.
  - lia.
Defined.

Lemma missing_field_raises_key_error_witness :
  for_body (criteo_reader 4) 4 (Some (example_columns 0 2))
    (delete "I2" (example_row_group 2 3))
  = ([], Raised (KeyError "I2")).
Proof.
  apply (missing_field_raises_key_error (criteo_reader 4) 4 (Some (example_columns 0 2))
           (delete "I2" (example_row_group 2 3)) ["Label"; "I1"]
           (drop 3 (fields (criteo_reader 4))) "I2").
  - reflexivity.
  - repeat constructor; vm_compute; eexists; reflexivity.
  - vm_compute. reflexivity.
Defined.

Lemma for_body_two_full_batches {A : Type} files (bs0 : Z) epochs shuffle
    (seed count cur : Z) (batch_size : Z) (rglist_0 : list A)
    (feature_columns : list (list A)) (rgdict : gmap string (list A)) (m : nat) :
  let self := PNNDataReader_init files bs0 epochs shuffle seed count cur in
  rglist_of self rgdict = inr (rglist_0 :: feature_columns) →
  columns_of_length m (rglist_0 :: feature_columns) →
  (39 ≤ batch_size)%Z → (2 * batch_size ≤ Z.of_nat m)%Z →
  for_body self batch_size None rgdict
  = ([Yield (Batch (take (Z.to_nat batch_size) rglist_0)
               {| shape := (m, 39); rows := rows_of feature_columns |}) None],
     Raised (ValueError "need at least one array to stack")).
Proof.
  intros self Hrg Hcols Hwide Hrows.
  pose proof (rglist_of_length _ _ _ Hrg) as Hlen_rg.
  assert (length feature_columns = 39) as Hlen_f by (simpl in Hlen_rg; lia).
  pose proof Hcols as [Hlen_0 _]%Forall_cons.
  unfold for_body. rewrite Hrg, lift_bind, ret_bind. unfold loop_fuel.
  rewrite (slicing_loop_first_wide _ _ _ _ _ m); [|by destruct feature_columns|done|lia..].
  rewrite Hlen_f, yield_bind.
  simpl lookup. simpl default.
  replace (Z.to_nat (len rglist_0 - 0)) with (S (Z.to_nat (len rglist_0 - 0) - 1))
    by (unfold len; lia).
  rewrite slicing_loop_past_last_column; [done|lia..|unfold len; lia].
Qed.

(** X6. A row group with two full batches makes the generator raise. When
    no tail exists, [batch_size] is at least the number of feature columns
    (39) and a well-formed row group has at least [2 * batch_size] rows, the
    generator yields one batch, whose feature array holds all the rows of the
    row group, and then raises [ValueError]: at [pos = batch_size] no feature
    column is left to stack. *)
Theorem two_full_batches_raise_value_error {A : Type} files (bs0 : Z) epochs shuffle
    (seed count cur : Z) (batch_size : Z) (rglist_0 : list A)
    (feature_columns : list (list A)) (rgdict : gmap string (list A)) (m : nat) :
  let self := PNNDataReader_init files bs0 epochs shuffle seed count cur in
  rglist_of self rgdict = inr (rglist_0 :: feature_columns) →
  columns_of_length m (rglist_0 :: feature_columns) →
  (39 ≤ batch_size)%Z → (2 * batch_size ≤ Z.of_nat m)%Z →
  for_body self batch_size None rgdict
  = ([Yield (Batch (take (Z.to_nat batch_size) rglist_0)
               {| shape := (m, 39); rows := rows_of feature_columns |}) None],
     Raised (ValueError "need at least one array to stack")).
Proof. apply for_body_two_full_batches. Qed.

(** X7. A row group of exactly [batch_size] rows gives one well-shaped batch
    when [batch_size] is at least the number of feature columns (39): with
    no tail before, the generator yields one batch that holds the labels and
    the feature rows of the whole row group, and leaves no tail. *)
Theorem wide_full_row_group_yields_training_batch {A : Type} files (bs0 : Z) epochs shuffle
    (seed count cur : Z) (batch_size : Z) (rglist_0 : list A)
    (feature_columns : list (list A)) (rgdict : gmap string (list A)) (m : nat) :
  let self := PNNDataReader_init files bs0 epochs shuffle seed count cur in
  let b := Batch rglist_0 {| shape := (m, 39); rows := rows_of feature_columns |} in
  rglist_of self rgdict = inr (rglist_0 :: feature_columns) →
  columns_of_length m (rglist_0 :: feature_columns) →
  (39 ≤ batch_size)%Z → batch_size = Z.of_nat m →
  for_body self batch_size None rgdict = ([Yield b None], Ok None) ∧
  training_batch batch_size 39 b.
Proof.
  intros self b Hrg Hcols Hwide ->.
  pose proof (rglist_of_length _ _ _ Hrg) as Hlen_rg.
  assert (length feature_columns = 39) as Hlen_f by (simpl in Hlen_rg; lia).
  pose proof Hcols as [Hlen_0 _]%Forall_cons.
  split; [|split; [by unfold len; simpl; rewrite Hlen_0|by rewrite Nat2Z.id]].
  unfold for_body. rewrite Hrg, lift_bind, ret_bind. unfold loop_fuel.
  rewrite (slicing_loop_first_wide _ _ _ _ _ m); [|by destruct feature_columns|done|lia..].
  rewrite Hlen_f, yield_bind.
  simpl lookup. simpl default.
  replace (Z.to_nat (len rglist_0 - 0)) with (S (Z.to_nat (len rglist_0 - 0) - 1))
    by (unfold len; lia).
  rewrite slicing_loop_unfold, index_0, lift_bind, decide_False by (unfold len; lia).
  simpl fst. simpl snd. rewrite pair_bind. cbv beta. rewrite lift_bind.
  rewrite decide_False by (unfold len; lia).
  subst b. simpl. rewrite Nat2Z.id, take_ge by lia. done.
Qed.


Lemma two_full_batches_raise_value_error_witness :
  for_body (criteo_reader 39) 39 None (example_row_group 0 78)
  = ([Yield (Batch (take (Z.to_nat 39) (default [] (head (example_columns 0 78))))
               {| shape := (78, 39); rows := rows_of (drop 1 (example_columns 0 78)) |}) None],
     Raised (ValueError "need at least one array to stack")).
Proof.
  unfold criteo_reader.
  apply (two_full_batches_raise_value_error ["file:///data/part-0.parquet"] 39 (Some 1%Z)
           false 1234 1 0 39 (default [] (head (example_columns 0 78)))
           (drop 1 (example_columns 0 78)) (example_row_group 0 78) 78).
  - vm_compute. reflexivity.
  - vm_compute. repeat constructor.
  - lia.
  - lia.
Defined.

Lemma wide_full_row_group_yields_training_batch_witness :
  let b := Batch (default [] (head (example_columns 0 39)))
             {| shape := (39, 39); rows := rows_of (drop 1 (example_columns 0 39)) |} in
  for_body (criteo_reader 39) 39 None (example_row_group 0 39) = ([Yield b None], Ok None) ∧
  training_batch 39 39 b.
Proof.
  unfold criteo_reader.
  apply (wide_full_row_group_yields_training_batch ["file:///data/part-0.parquet"] 39
           (Some 1%Z) false 1234 1 0 39 (default [] (head (example_columns 0 39)))
           (drop 1 (example_columns 0 39)) (example_row_group 0 39) 39).
  - vm_compute. reflexivity.
  - vm_compute. repeat constructor.
  - lia.
  - reflexivity.
Defined.

Lemma for_body_zero_batch_size {A : Type} (self : PNNDataReader)
    (rgdict : gmap string (list A)) (rglist_0 : list A) (feature_columns : list (list A)) :
  rglist_of self rgdict = inr (rglist_0 :: feature_columns) →
  for_body self 0 None rgdict = ([], Raised (ValueError "need at least one array to stack")).
Proof.
  intros Hrg. unfold for_body. rewrite Hrg, lift_bind, ret_bind. unfold loop_fuel.
  rewrite slicing_loop_unfold, index_0, lift_bind.
  rewrite decide_True by (pose proof (len_nonneg rglist_0); lia).
  rewrite (slice_empty (slice_from _ 1)); [done|]. by rewrite Z.add_0_l.
Qed.

Lemma make_criteo_dataloader_zero_batch_size {A : Type} (env : Env) (data_path : string)
    (global_batch_size : Z) (shuffle : bool)
    (rgdict : gmap string (list A)) (reader : list (gmap string (list A))) :
  (0 ≤ global_batch_size < get_world_size env)%Z →
  Forall (λ field, is_Some (rgdict !! field)) (fields (criteo_reader 0)) →
  ∃ self, make_criteo_dataloader env data_path global_batch_size shuffle = inr self ∧
          batch_size self = 0%Z ∧
          get_batches self (rgdict :: reader) None
          = ([], Raised (ValueError "need at least one array to stack")).
Proof.
  intros Hbs Hpresent. unfold make_criteo_dataloader, floordiv.
  rewrite decide_False by lia. rewrite Z.div_small by done.
  eexists. split; [reflexivity|]. split; [done|].
  set (self := PNNDataReader_init _ _ _ _ _ _ _).
  destruct (rglist_of_present self rgdict Hpresent) as (rglist & Hrg & Hlen).
  destruct rglist as [|rglist_0 feature_columns]; [done|].
  change (for_loop self 0 None (rgdict :: reader)
          = ([], Raised (ValueError "need at least one array to stack"))).
  rewrite for_loop_cons.
  by rewrite (for_body_zero_batch_size self rgdict rglist_0 feature_columns).
Qed.

(** X8. A global batch size below the world size leaves every process with a
    batch size of zero, and the dataloader then yields nothing: on the first
    row group that has the fields of the schema the generator raises
    [ValueError], whatever the rows of the row group. *)
Theorem batch_size_below_world_size_raises {A : Type} (env : Env) (data_path : string)
    (global_batch_size : Z) (shuffle : bool)
    (rgdict : gmap string (list A)) (reader : list (gmap string (list A))) :
  (0 ≤ global_batch_size < get_world_size env)%Z →
  Forall (λ field, is_Some (rgdict !! field)) (fields (criteo_reader 0)) →
  ∃ self, make_criteo_dataloader env data_path global_batch_size shuffle = inr self ∧
          batch_size self = 0%Z ∧
          get_batches self (rgdict :: reader) None
          = ([], Raised (ValueError "need at least one array to stack")).
Proof. apply make_criteo_dataloader_zero_batch_size. Qed.

Lemma batch_size_below_world_size_raises_witness :
  ∃ self, make_criteo_dataloader (example_env 8) "/data/train" 4 true = inr self ∧
          batch_size self = 0%Z ∧
          get_batches self (example_row_group 0 6 :: [example_row_group 6 5]) None
          = ([], Raised (ValueError "need at least one array to stack")).
Proof.
  apply (batch_size_below_world_size_raises (example_env 8) "/data/train" 4 true
           (example_row_group 0 6) [example_row_group 6 5]).
  - simpl. lia.
  - repeat constructor; vm_compute; eexists; reflexivity.
Defined.

(** X9. The generator reads the columns of the schema and no other: two
    sequences of row groups that agree, row group by row group, on the
    columns named by the schema give the same run, whatever other columns
    the row groups carry. *)
Theorem get_batches_reads_schema_columns_only {A : Type} (self : PNNDataReader)
    (reader1 reader2 : list (gmap string (list A))) (batch_size_arg : option Z) :
  Forall2 (λ rg1 rg2, ∀ field, field ∈ fields self → rg1 !! field = rg2 !! field)
    reader1 reader2 →
  get_batches self reader1 batch_size_arg = get_batches self reader2 batch_size_arg.
Proof.
  intros Hagree. unfold get_batches.
  generalize (None : option (list (list A))) as tail.
  induction Hagree as [|rg1 rg2 reader1 reader2 Hrg Hagree IH]; intros tail; [done|].
  rewrite !for_loop_cons.
  assert (for_body self (match batch_size_arg with
                         | Some bs => bs | None => batch_size self end) tail rg1
          = for_body self (match batch_size_arg with
                           | Some bs => bs | None => batch_size self end) tail rg2) as ->.
  { unfold for_body. by rewrite (rglist_of_ext self rg1 rg2). }
  apply gen_bind_ext. intros tail'. by rewrite IH.
Qed.

Lemma get_batches_reads_schema_columns_only_witness :
  get_batches (criteo_reader 4) [<["weight" := [1; 2; 3]%Z]> (example_row_group 0 6)] None
  = get_batches (criteo_reader 4) [example_row_group 0 6] None.
Proof.
  apply (get_batches_reads_schema_columns_only (criteo_reader 4)
           [<["weight" := [1; 2; 3]%Z]> (example_row_group 0 6)] [example_row_group 0 6] None).
  repeat constructor. intros field Hfield. apply lookup_insert_ne.
  intros <-. revert Hfield. apply (bool_decide_eq_false_1 _). vm_compute. reflexivity.
Defined.

End one_row_group_theorems.

(** * The product layers *)

Section product_layers.
Local Open Scope list_scope.
Local Open Scope Z_scope.

Lemma pair_indices_inner (i : Z) (row col js : list Z) :
  foldl (λ '(row, col) j, (row ++ [i], col ++ [j])) (row, col) js
  = (row ++ ((λ j, (i, j)) <$> js).*1, col ++ ((λ j, (i, j)) <$> js).*2).
Proof.
  revert row col. induction js as [|j js IH]; intros row col; simpl.
  - by rewrite !app_nil_r.
  - rewrite IH. by rewrite <-!(assoc_L (++)).
Qed.

Lemma pair_indices_outer (num_inputs : Z) (row col indices : list Z) :
  foldl (λ '(row, col) i,
           foldl (λ '(row, col) j, (row ++ [i], col ++ [j]))
             (row, col) (py_range (i + 1) num_inputs)) (row, col) indices
  = (row ++ (indices ≫= λ i, (λ j, (i, j)) <$> py_range (i + 1) num_inputs).*1,
     col ++ (indices ≫= λ i, (λ j, (i, j)) <$> py_range (i + 1) num_inputs).*2).
Proof.
  revert row col. induction indices as [|i indices IH]; intros row col.
  - simpl. by rewrite !app_nil_r.
  - cbn [foldl]. rewrite pair_indices_inner, IH, bind_cons, !fmap_app.
    by rewrite <-!(assoc_L (++)).
Qed.

Lemma pair_indices_ordered_pairs (num_inputs : Z) :
  pair_indices num_inputs = ((ordered_pairs num_inputs).*1, (ordered_pairs num_inputs).*2).
Proof. unfold pair_indices. by rewrite pair_indices_outer. Qed.

Lemma elem_of_py_range (start stop k : Z) : k ∈ py_range start stop ↔ start ≤ k < stop.
Proof. unfold py_range. rewrite elem_of_seqZ. lia. Qed.

Lemma elem_of_ordered_pairs (num_inputs i j : Z) :
  (i, j) ∈ ordered_pairs num_inputs ↔ 0 ≤ i < j ∧ j < num_inputs.
Proof.
  unfold ordered_pairs. rewrite list_elem_of_bind. split.
  - intros (i' & (j' & [= -> ->] & Hj)%list_elem_of_fmap & Hi).
    apply elem_of_py_range in Hi, Hj. lia.
  - intros [Hi Hj]. exists i. split.
    + apply list_elem_of_fmap. exists j. split; [done|]. apply elem_of_py_range. lia.
    + apply elem_of_py_range. lia.
Qed.

Lemma NoDup_ordered_pairs (num_inputs : Z) : NoDup (ordered_pairs num_inputs).
Proof.
  unfold ordered_pairs. apply NoDup_bind.
  - intros i1 i2 [i j] _ _ (j1 & [= -> ->] & _)%list_elem_of_fmap
      (j2 & [= -> ->] & _)%list_elem_of_fmap. done.
  - intros i _. apply NoDup_fmap_2; [by intros j1 j2 [=]|]. apply NoDup_seqZ.
  - apply NoDup_seqZ.
Qed.

Lemma length_ordered_pairs_from (num_inputs start : Z) (k : nat) :
  0 ≤ start → start + Z.of_nat k ≤ num_inputs - 1 →
  2 * Z.of_nat (length (seqZ start (Z.of_nat k)
                          ≫= λ i, (λ j, (i, j)) <$> py_range (i + 1) num_inputs))
  = 2 * Z.of_nat k * (num_inputs - 1) - 2 * Z.of_nat k * start
    - Z.of_nat k * (Z.of_nat k - 1).
Proof.
  revert start. induction k as [|k IH]; intros start Hstart Hk; [done|].
  rewrite seqZ_cons by lia. rewrite bind_cons, length_app, length_fmap.
  unfold py_range at 1. rewrite length_seqZ.
  replace (Z.pred (Z.of_nat (S k))) with (Z.of_nat k) by lia.
  rewrite Nat2Z.inj_add, Z.mul_add_distr_l, IH by lia. nia.
Qed.

Lemma length_ordered_pairs (num_inputs : Z) :
  0 ≤ num_inputs →
  Z.of_nat (length (ordered_pairs num_inputs)) = num_inputs * (num_inputs - 1) / 2.
Proof.
  intros Hn. destruct (decide (num_inputs = 0)) as [->|Hne]; [done|].
  unfold ordered_pairs.
  change (py_range 0 (num_inputs - 1)) with (seqZ 0 (num_inputs - 1 - 0)).
  rewrite Z.sub_0_r.
  pose proof (length_ordered_pairs_from num_inputs 0 (Z.to_nat (num_inputs - 1))) as Hlen.
  rewrite Z2Nat.id in Hlen by lia.
  apply Z.div_unique_exact; [lia|]. nia.
Qed.

Lemma result_mapM_total {X Y : Type} (f : X → result Y) (P : Y → X → Prop) (xs : list X) :
  Forall (λ x, ∃ y, f x = inr y ∧ P y x) xs →
  ∃ ys, result_mapM f xs = inr ys ∧ Forall2 P ys xs.
Proof.
  induction 1 as [|x xs (y & Hy & HP) Hxs (ys & IH & Hys)]; simpl.
  - exists []. by split; [|constructor].
  - rewrite Hy, IH. exists (y :: ys). by split; [|constructor].
Qed.

Lemma getitem_in_range {X : Type} (l : list X) (i : Z) :
  0 ≤ i < len l → ∃ x, getitem l i = inr x ∧ l !! Z.to_nat i = Some x.
Proof.
  intros Hi. unfold getitem.
  destruct (decide (i < 0)) as [?|_]; [lia|]. rewrite decide_True by lia.
  destruct (lookup_lt_is_Some_2 l (Z.to_nat i)) as [x Hx]; [unfold len in Hi; lia|].
  exists x. unfold index. by rewrite Hx.
Qed.

(** X10. The loops of the product layers list every pair of positions
    [i < j] of their input once and no other pair. *)
Theorem pair_indices_enumerate_pairs_once (num_inputs : Z) :
  let row := (pair_indices num_inputs).1 in
  let col := (pair_indices num_inputs).2 in
  length row = length col ∧
  NoDup (zip row col) ∧
  ∀ i j, (i, j) ∈ zip row col ↔ 0 ≤ i < j ∧ j < num_inputs.
Proof.
  rewrite pair_indices_ordered_pairs. simpl. rewrite zip_fst_snd.
  split; [by rewrite !length_fmap|]. split; [apply NoDup_ordered_pairs|].
  apply elem_of_ordered_pairs.
Qed.

(** X11. The operands of the product layers. For an input of [n] elements
    the two list comprehensions raise no [IndexError]; each gives
    [n * (n - 1) / 2] elements, the elements of the input at the positions
    listed in [row] and in [col]. *)
Theorem product_operands_pick_pairs {X : Type} (embed_list : list X) :
  let n := len embed_list in
  let row := (pair_indices n).1 in
  let col := (pair_indices n).2 in
  ∃ p q, product_operands embed_list = inr (p, q) ∧
         Z.of_nat (length p) = n * (n - 1) / 2 ∧
         Z.of_nat (length q) = n * (n - 1) / 2 ∧
         Forall2 (λ x i, embed_list !! Z.to_nat i = Some x) p row ∧
         Forall2 (λ x j, embed_list !! Z.to_nat j = Some x) q col.
Proof.
  intros n row col.
  assert (row = (ordered_pairs n).*1 ∧ col = (ordered_pairs n).*2) as [Hrow_eq Hcol_eq].
  { unfold row, col. by rewrite pair_indices_ordered_pairs. }
  assert (Forall (λ i, ∃ x, getitem embed_list i = inr x ∧
                            embed_list !! Z.to_nat i = Some x) row) as Hrow.
  { rewrite Hrow_eq. apply Forall_forall.
    intros i ([i' j] & -> & Hij%elem_of_ordered_pairs)%list_elem_of_fmap.
    apply getitem_in_range. simpl. lia. }
  assert (Forall (λ j, ∃ x, getitem embed_list j = inr x ∧
                            embed_list !! Z.to_nat j = Some x) col) as Hcol.
  { rewrite Hcol_eq. apply Forall_forall.
    intros j ([i j'] & -> & Hij%elem_of_ordered_pairs)%list_elem_of_fmap.
    apply getitem_in_range. simpl. lia. }
  destruct (result_mapM_total _ _ _ Hrow) as (p & Hp & Hp2).
  destruct (result_mapM_total _ _ _ Hcol) as (q & Hq & Hq2).
  exists p, q. split; [|split; [|split; [|split]]]; [|  | |done|done].
  - unfold product_operands. fold n.
    destruct (pair_indices n) as [row' col'] eqn:Hpair. simpl in row, col.
    subst row col. by rewrite Hp, Hq.
  - rewrite (Forall2_length _ _ _ Hp2), Hrow_eq, length_fmap.
    apply length_ordered_pairs, len_nonneg.
  - rewrite (Forall2_length _ _ _ Hq2), Hcol_eq, length_fmap.
    apply length_ordered_pairs, len_nonneg.
Qed.

End product_layers.

(** * The layers of the DNN *)

Section dnn_layers.
Local Open Scope list_scope.
Local Open Scope Z_scope.

Lemma lookup_py_range_0 (n : Z) (k : nat) (i : Z) :
  py_range 0 n !! k = Some i ↔ i = Z.of_nat k ∧ Z.of_nat k < n.
Proof. unfold py_range. rewrite lookup_seqZ. lia. Qed.

Lemma length_py_range_0 (n : Z) : length (py_range 0 n) = Z.to_nat n.
Proof. unfold py_range. rewrite length_seqZ. f_equal. lia. Qed.

(** The comprehension of the unfused branch: layer [k] is built from
    [units[k]] and [units[k + 1]]. *)
Lemma DNN_init_unfused (in_features : Z) (hidden_units : list Z) (skip_final_activation : bool) :
  ∃ denses,
    DNN_init in_features hidden_units skip_final_activation false = inr (Sequential denses) ∧
    length denses = length hidden_units ∧
    ∀ (k : nat) dense, denses !! k = Some dense →
      (in_features :: hidden_units) !! k = Some (dense_in_features dense) ∧
      hidden_units !! k = Some (dense_out_features dense) ∧
      dense_relu dense
      = negb skip_final_activation || bool_decide (Z.of_nat k + 1 < len hidden_units).
Proof.
  set (P := λ dense (i : Z),
    (in_features :: hidden_units) !! Z.to_nat i = Some (dense_in_features dense) ∧
    hidden_units !! Z.to_nat i = Some (dense_out_features dense) ∧
    dense_relu dense = negb skip_final_activation || bool_decide (i + 1 < len hidden_units)).
  edestruct (result_mapM_total
    (λ i, units_i ← getitem ([in_features] ++ hidden_units) i;
          units_i1 ← getitem ([in_features] ++ hidden_units) (i + 1);
          mret {| dense_in_features := units_i;
                  dense_out_features := units_i1;
                  dense_relu := negb skip_final_activation
                                || bool_decide (i + 1 < len hidden_units) |})
    P (py_range 0 (len hidden_units))) as (denses & Hdenses & HP).
  { apply Forall_forall. intros i Hi. apply elem_of_py_range in Hi.
    destruct (getitem_in_range ([in_features] ++ hidden_units) i) as (a & -> & Ha).
    { rewrite len_app. unfold len in *. simpl. lia. }
    destruct (getitem_in_range ([in_features] ++ hidden_units) (i + 1)) as (b & -> & Hb).
    { rewrite len_app. unfold len in *. simpl. lia. }
    eexists. split; [reflexivity|]. unfold P. simpl. split; [done|]. split; [|done].
    replace (Z.to_nat (i + 1)) with (S (Z.to_nat i)) in Hb by lia. done. }
  exists denses. split; [|split].
  - unfold DNN_init. simpl negb. cbv iota. by rewrite Hdenses.
  - rewrite (Forall2_length _ _ _ HP), length_py_range_0. unfold len. lia.
  - intros k dense Hk.
    destruct (Forall2_lookup_l _ _ _ _ _ HP Hk) as (i & [-> _]%lookup_py_range_0 & Hi).
    unfold P in Hi. by rewrite Nat2Z.id in Hi.
Qed.

Lemma skipn_lookups_eq {X : Type} (l1 l2 : list X) :
  length l1 = length l2 → (∀ k x, l1 !! k = Some x → l2 !! k = Some x) → l1 = l2.
Proof.
  intros Hlen Hl. apply list_eq. intros k.
  destruct (l1 !! k) as [x|] eqn:H1; [by rewrite (Hl k x)|].
  apply lookup_ge_None in H1. symmetry. apply lookup_ge_None. lia.
Qed.

Lemma DNN_init_unfused_chain (in_features : Z) (hidden_units : list Z)
    (skip_final_activation : bool) :
  ∃ denses,
    DNN_init in_features hidden_units skip_final_activation false = inr (Sequential denses) ∧
    dense_out_features <$> denses = hidden_units ∧
    dense_in_features <$> denses = take (length hidden_units) (in_features :: hidden_units) ∧
    layers_fit denses ∧
    ∀ (k : nat) dense, denses !! k = Some dense →
      dense_relu dense = if decide (S k = length hidden_units)
                         then negb skip_final_activation else true.
Proof.
  destruct (DNN_init_unfused in_features hidden_units skip_final_activation)
    as (denses & Hinit & Hlen & Hlayers).
  exists denses. split; [done|].
  assert (dense_out_features <$> denses = hidden_units) as Hout.
  { apply skipn_lookups_eq; [by rewrite length_fmap|].
    intros k x. rewrite list_lookup_fmap.
    destruct (denses !! k) as [dense|] eqn:Hk; [|done]. intros [= <-].
    by destruct (Hlayers k dense Hk) as (_ & ? & _). }
  assert (dense_in_features <$> denses
          = take (length hidden_units) (in_features :: hidden_units)) as Hin.
  { apply skipn_lookups_eq.
    { rewrite length_fmap, length_take. simpl. lia. }
    intros k x. rewrite list_lookup_fmap.
    destruct (denses !! k) as [dense|] eqn:Hk; [|done]. intros [= <-].
    destruct (Hlayers k dense Hk) as (? & _ & _).
    rewrite lookup_take_lt; [done|]. apply lookup_lt_Some in Hk. lia. }
  split; [done|]. split; [done|]. split.
  - clear Hinit Hlayers Hlen. revert in_features hidden_units Hout Hin.
    induction denses as [|d1 denses IH]; intros in_features hidden_units Hout Hin; [done|].
    destruct denses as [|d2 denses]; [done|].
    destruct hidden_units as [|h1 [|h2 hidden_units]]; try done.
    injection Hout as Hout1 Hout2 Hout. injection Hin as Hin1 Hin2 Hin.
    split; [congruence|].
    apply (IH h1 (h2 :: hidden_units)); simpl; by f_equal.
  - intros k dense Hk. destruct (Hlayers k dense Hk) as (_ & _ & ->).
    apply lookup_lt_Some in Hk. unfold len.
    destruct skip_final_activation; simpl; case_decide; try case_bool_decide; done || lia.
Qed.

(** X12. The unfused DNN is a chain of layers that fit. For every input size
    and list of hidden units the unfused branch raises nothing and builds one
    layer for each hidden unit; the first layer takes [in_features], every
    layer gives the hidden unit of its position and takes what the layer
    before it gives; every layer has a ReLU but the last, which has one
    unless [skip_final_activation] is set. *)
Theorem dnn_unfused_layers_chain (in_features : Z) (hidden_units : list Z)
    (skip_final_activation : bool) :
  ∃ denses,
    DNN_init in_features hidden_units skip_final_activation false = inr (Sequential denses) ∧
    dense_out_features <$> denses = hidden_units ∧
    dense_in_features <$> denses = take (length hidden_units) (in_features :: hidden_units) ∧
    layers_fit denses ∧
    ∀ (k : nat) dense, denses !! k = Some dense →
      dense_relu dense = if decide (S k = length hidden_units)
                         then negb skip_final_activation else true.
Proof. apply DNN_init_unfused_chain. Qed.

Lemma fused_arguments (hidden_features : list Z) (out_features : Z) :
  slice (hidden_features ++ [out_features]) 0 (-1) = hidden_features ∧
  getitem (hidden_features ++ [out_features]) (-1) = inr out_features.
Proof.
  split.
  - unfold slice, slice_index. rewrite len_app. unfold len. simpl length.
    repeat case_decide; try lia.
    replace (Z.to_nat (Z.min 0 _)) with 0%nat by lia.
    replace (Z.to_nat _) with (length hidden_features) by lia.
    rewrite drop_0. by rewrite take_app_length.
  - unfold getitem. rewrite len_app. unfold len. simpl length.
    repeat case_decide; try lia.
    replace (Z.to_nat _) with (length hidden_features) by lia.
    unfold index. by rewrite list_lookup_middle.
Qed.

Lemma DNN_init_fused_sizes (in_features : Z) (hidden_units : list Z)
    (skip_final_activation : bool) :
  match hidden_units with
  | [] =>
      DNN_init in_features hidden_units skip_final_activation true = inl IndexError ∧
      DNN_init in_features hidden_units skip_final_activation false = inr (Sequential [])
  | _ :: _ =>
      ∃ fused_layers unfused_layers,
        DNN_init in_features hidden_units skip_final_activation true = inr fused_layers ∧
        DNN_init in_features hidden_units skip_final_activation false = inr unfused_layers ∧
        layer_sizes fused_layers = in_features :: hidden_units ∧
        layer_sizes unfused_layers = in_features :: hidden_units
  end.
Proof.
  destruct hidden_units as [|h hidden_units]; [done|].
  assert (h :: hidden_units ≠ []) as Hne by done.
  revert Hne. generalize (h :: hidden_units). clear h hidden_units.
  intros hidden_units Hne.
  destruct (DNN_init_unfused_chain in_features hidden_units skip_final_activation)
    as (denses & Hunfused & Hout & Hin & _).
  destruct (exists_last Hne) as (hidden_features & out_features & ->).
  destruct (fused_arguments hidden_features out_features) as [Hslice Hlast].
  eexists _, (Sequential denses). split; [|split; [done|split]].
  - unfold DNN_init. rewrite Hslice, Hlast. reflexivity.
  - done.
  - destruct denses as [|dense denses].
    { by destruct hidden_features. }
    cbn [layer_sizes]. rewrite Hout. f_equal.
    rewrite length_app, fmap_cons in Hin.
    replace (length hidden_features + length [out_features])%nat
      with (S (length hidden_features)) in Hin by (simpl; lia).
    cbn [take] in Hin. by injection Hin.
Qed.

(** X13. The fused and the unfused DNN have the same sizes. For a list of
    hidden units that is not empty both branches raise nothing and build
    layers that map [in_features] through the hidden units, one after the
    other; for an empty list the fused branch raises [IndexError] where the
    unfused branch builds a stack without layers. *)
Theorem dnn_fused_matches_unfused (in_features : Z) (hidden_units : list Z)
    (skip_final_activation : bool) :
  match hidden_units with
  | [] =>
      DNN_init in_features hidden_units skip_final_activation true = inl IndexError ∧
      DNN_init in_features hidden_units skip_final_activation false = inr (Sequential [])
  | _ :: _ =>
      ∃ fused_layers unfused_layers,
        DNN_init in_features hidden_units skip_final_activation true = inr fused_layers ∧
        DNN_init in_features hidden_units skip_final_activation false = inr unfused_layers ∧
        layer_sizes fused_layers = in_features :: hidden_units ∧
        layer_sizes unfused_layers = in_features :: hidden_units
  end.
Proof. apply DNN_init_fused_sizes. Qed.

(** The loop over the parameters raises nothing when no parameter has a zero
    first dimension or dimensions that add up to zero. *)
Lemma DNN_init_parameters_ok (layers : linear_layers) :
  Forall (λ '(name, shape), ∃ shape_0 rest,
            shape = shape_0 :: rest ∧ shape_0 ≠ 0 ∧ py_sum shape ≠ 0)
    (named_parameters layers) →
  DNN_init_parameters layers = inr ().
Proof.
  intros Hshapes. unfold DNN_init_parameters.
  edestruct (result_mapM_total
    (λ '(name, shape),
       if contains "weight" name then truediv 2 (py_sum shape)
       else if contains "bias" name then shape_0 ← getitem shape 0; truediv 1 shape_0
       else mret ())
    (λ _ _, True) (named_parameters layers)) as (units & -> & _); [|done].
  eapply Forall_impl; [exact Hshapes|].
  intros [name shape] (shape_0 & rest & -> & H0 & Hsum).
  exists (). split; [|done].
  destruct (contains "weight" name).
  { unfold truediv. by rewrite decide_False. }
  destruct (contains "bias" name); [|done].
  change (getitem (shape_0 :: rest) 0) with (inr shape_0 : result Z).
  unfold truediv. cbn. by rewrite decide_False.
Qed.

Lemma named_parameters_fused_positive (in_features : Z) (hidden_features : list Z)
    (out_features : Z) (skip_final_activation : bool) :
  Forall (λ size, 0 < size) (in_features :: hidden_features ++ [out_features]) →
  Forall (λ '(name, shape), ∃ shape_0 rest,
            shape = shape_0 :: rest ∧ shape_0 ≠ 0 ∧ py_sum shape ≠ 0)
    (named_parameters
       (FusedMLP in_features hidden_features out_features skip_final_activation)).
Proof.
  intros Hpos. cbn [named_parameters].
  set (sizes := in_features :: hidden_features ++ [out_features]) in *.
  apply Forall_forall. intros [name shape].
  intros (params & Hin & (k & [i o] & -> & Hk)%elem_of_lookup_imap)%list_elem_of_join.
  apply lookup_zip_with_Some in Hk as (i' & o' & [= <- <-] & Hi & Ho).
  rewrite lookup_drop in Ho.
  pose proof (Forall_lookup_1 _ _ _ _ Hpos Hi) as Hi_pos.
  pose proof (Forall_lookup_1 _ _ _ _ Hpos Ho) as Ho_pos. simpl in Hi_pos, Ho_pos.
  apply elem_of_cons in Hin as [[= -> ->]|Hin].
  { eexists _, _. split; [reflexivity|]. unfold py_sum. simpl. lia. }
  apply list_elem_of_singleton in Hin as [= -> ->].
  eexists _, _. split; [reflexivity|]. unfold py_sum. simpl. lia.
Qed.

Lemma named_parameters_unfused_positive (denses : list DenseLayer) :
  Forall (λ dense, 0 < dense_in_features dense ∧ 0 < dense_out_features dense) denses →
  Forall (λ '(name, shape), ∃ shape_0 rest,
            shape = shape_0 :: rest ∧ shape_0 ≠ 0 ∧ py_sum shape ≠ 0)
    (named_parameters (Sequential denses)).
Proof.
  intros Hpos. cbn [named_parameters].
  apply Forall_forall. intros [name shape].
  intros (params & Hin & (k & dense & -> & Hk)%elem_of_lookup_imap)%list_elem_of_join.
  pose proof (Forall_lookup_1 _ _ _ _ Hpos Hk) as [Hi_pos Ho_pos].
  apply elem_of_cons in Hin as [[= -> ->]|Hin].
  { eexists _, _. split; [reflexivity|]. unfold py_sum. simpl. lia. }
  apply list_elem_of_singleton in Hin as [= -> ->].
  eexists _, _. split; [reflexivity|]. unfold py_sum. simpl. lia.
Qed.

(** A hidden layer without units stops the construction: the loop over the
    parameters divides by the size of its bias. *)
Example pnn_dnn_layer_zero_unit :
  PNNModule_dnn_layer 16 [8; 0] true = inl ZeroDivisionError ∧
  PNNModule_dnn_layer 16 [8; 0] false = inl ZeroDivisionError.
Proof. split; vm_compute; reflexivity. Qed.

(** X14. The DNN of [PNNModule] ends in one unit without activation. When
    [embedding_vec_size] and every hidden unit asked for are positive,
    [self.dnn_layer] is built without error, fused or not: neither the
    construction of the layers nor the loop that initialises their
    parameters raises; it maps [embedding_vec_size * 39] inputs through the
    hidden layers to a single output, and its last layer has no ReLU. *)
Theorem pnn_dnn_layer_ends_in_one_unit (embedding_vec_size : Z) (dnn : list Z)
    (use_fusedmlp : bool) :
  0 < embedding_vec_size → Forall (λ unit, 0 < unit) dnn →
  ∃ layers,
    PNNModule_dnn_layer embedding_vec_size dnn use_fusedmlp = inr layers ∧
    layer_sizes layers = embedding_vec_size * 39 :: dnn ++ [1] ∧
    match layers with
    | FusedMLP _ _ _ skip_final_activation => skip_final_activation = true
    | Sequential denses => dense_relu <$> last denses = Some false
    end.
Proof.
  intros Hvec Hdnn. unfold PNNModule_dnn_layer, DNN.
  change (Z.of_nat num_dense_fields + Z.of_nat num_sparse_fields) with 39.
  assert (Forall (λ size, 0 < size) (embedding_vec_size * 39 :: dnn ++ [1])) as Hpos.
  { apply Forall_cons. split; [lia|]. apply Forall_app. split; [done|].
    by apply Forall_singleton. }
  pose proof (DNN_init_fused_sizes (embedding_vec_size * 39) (dnn ++ [1]) true)
    as Hsizes.
  destruct (dnn ++ [1]) as [|h hidden_units] eqn:Heq; [by destruct dnn|].
  rewrite <-Heq in *. clear Heq h hidden_units.
  destruct Hsizes as (fused_layers & unfused_layers & Hf & Hu & Hfs & Hus).
  destruct use_fusedmlp.
  - destruct (fused_arguments dnn 1) as [Hslice Hlast].
    unfold DNN_init in Hf. rewrite Hslice, Hlast in Hf. injection Hf as <-.
    unfold DNN_init. rewrite Hslice, Hlast. cbn [mbind result_mbind result_bind mret result_mret].
    rewrite DNN_init_parameters_ok by (by apply named_parameters_fused_positive).
    eexists. split; [reflexivity|]. by split.
  - destruct (DNN_init_unfused_chain (embedding_vec_size * 39) (dnn ++ [1]) true)
      as (denses & Hinit & Hout & Hin & _ & Hrelu).
    rewrite Hu in Hinit. injection Hinit as ->. rewrite Hu.
    cbn [mbind result_mbind result_bind mret result_mret].
    rewrite DNN_init_parameters_ok.
    2:{ apply named_parameters_unfused_positive, Forall_lookup_2. intros k dense Hk.
        assert ((dense_in_features <$> denses) !! k = Some (dense_in_features dense)) as Hi
          by (by rewrite list_lookup_fmap, Hk).
        assert ((dense_out_features <$> denses) !! k = Some (dense_out_features dense)) as Ho
          by (by rewrite list_lookup_fmap, Hk).
        rewrite Hin in Hi. rewrite Hout in Ho.
        apply lookup_take_Some in Hi as [Hi _].
        split.
        - apply (Forall_lookup_1 _ _ _ _ Hpos Hi).
        - apply Forall_cons in Hpos as [_ Hpos]. apply (Forall_lookup_1 _ _ _ _ Hpos Ho). }
    eexists. split; [reflexivity|]. split; [done|].
    assert (length denses = S (length dnn)) as Hlen.
    { rewrite <-(length_fmap dense_out_features), Hout, length_app. simpl. lia. }
    destruct (exists_last (l := denses)) as (denses' & dense & ->); [by destruct denses|].
    rewrite last_snoc. simpl. f_equal.
    rewrite length_app in Hlen. simpl in Hlen.
    rewrite (Hrelu (length denses') dense) by (by rewrite list_lookup_middle).
    rewrite decide_True; [done|]. rewrite length_app. simpl. lia.
Qed.

Lemma pnn_dnn_layer_ends_in_one_unit_witness :
  ∃ layers,
    PNNModule_dnn_layer 16 [64; 32] false = inr layers ∧
    layer_sizes layers = [624; 64; 32; 1] ∧
    match layers with
    | FusedMLP _ _ _ skip_final_activation => skip_final_activation = true
    | Sequential denses => dense_relu <$> last denses = Some false
    end.
Proof.
  apply (pnn_dnn_layer_ends_in_one_unit 16 [64; 32] false).
  - reflexivity.
  - repeat constructor.
Defined.

End dnn_layers.

(** * The forward pass *)

Section forward_properties.
Context {A X T Y L : Type}.
Variable embedding_layer : ndarray2 A → attempt (list X).
Variable flow_cat : list X → attempt T.
Variable flow_mul : T → T → attempt T.
Variable flow_sum : T → attempt T.
Variable flow_flatten : T → attempt T.
Variable loss_backward : Y → list A → attempt L.

(** The forward pass never returns: it raises in a call of the framework
    or, when these return, at the attribute that is not set. *)
Lemma PNNModule_forward_raises (inputs : ndarray2 A) :
  ∃ e, PNNModule_forward (Y := Y) embedding_layer flow_cat flow_mul flow_sum flow_flatten
         inputs = inl e ∧
       ∀ embedded_x inner_product,
         embedding_layer inputs = inr embedded_x →
         (InnerProductLayer_forward flow_cat flow_mul flow_sum true embedded_x
            ≫= flow_flatten) = inr inner_product →
         e = AttributeError "fm_layer".
Proof.
  unfold PNNModule_forward.
  destruct (embedding_layer inputs) as [e|embedded_x].
  { exists e. split; [done|]. by intros ?? [=]. }
  cbn [mbind attempt_mbind].
  destruct (InnerProductLayer_forward _ _ _ true embedded_x) as [e|inner] eqn:Hinner.
  { exists e. split; [done|]. intros ?? [= <-] Hflat. by rewrite Hinner in Hflat. }
  cbn [mbind attempt_mbind].
  destruct (flow_flatten inner) as [e|flat] eqn:Hflatten.
  { exists e. split; [done|]. intros ?? [= <-] Hflat. rewrite Hinner in Hflat.
    cbn [mbind attempt_mbind] in Hflat. by rewrite Hflatten in Hflat. }
  by exists (AttributeError "fm_layer").
Qed.

End forward_properties.

(** * The evaluation loop *)

Section eval_properties.
Context {A Q AUC : Type}.
Variable eval_graph : ndarray2 A → attempt (list Q).
Variable roc_auc_score : list A → list Q → attempt AUC.
Local Open Scope list_scope.
Local Open Scope Z_scope.

Lemma attempt_mapM_length {X' Y' : Type} (f : X' → attempt Y') (xs : list X') ys :
  attempt_mapM f xs = inr ys → length ys = length xs.
Proof.
  revert ys. induction xs as [|x xs IH]; intros ys; simpl.
  - by intros [= <-].
  - destruct (f x) as [e|y]; [done|]. simpl.
    destruct (attempt_mapM f xs) as [e|ys']; [done|]. simpl.
    intros [= <-]. simpl. by rewrite (IH ys').
Qed.

(** The loop calls [eval_graph] on the batches of the loader, in order,
    until it has evaluated [eval_batches] of them, the loader ends or a
    call raises. *)
Lemma eval_loop_spec (args : Args) (num_eval_batches : Z) (labels : list (list A))
    (preds : list (list Q)) (bs : list (batch A)) (final : ending) :
  num_eval_batches ≤ eval_batches args →
  let k := Z.to_nat (eval_batches args - num_eval_batches) in
  eval_loop eval_graph args num_eval_batches labels preds bs final
  = (new_preds ← attempt_mapM (λ b, eval_graph (features b)) (take k bs);
     if decide (k < length bs)%nat
     then inr (labels ++ (label <$> take k bs), preds ++ new_preds)
     else match final with
          | Exhausted => inr (labels ++ (label <$> bs), preds ++ new_preds)
          | Failed e => inl (Exn e)
          end).
Proof.
  revert num_eval_batches labels preds.
  induction bs as [|b bs IH]; intros n labels preds Hn k.
  { cbn [eval_loop]. rewrite take_nil. cbn.
    destruct final; [|done]. by rewrite !app_nil_r. }
  cbn [eval_loop]. destruct (decide (n + 1 > eval_batches args)) as [Hbreak|Hgo].
  - assert (k = 0%nat) as -> by lia. cbn. by rewrite !app_nil_r.
  - replace k with (S (Z.to_nat (eval_batches args - (n + 1)))) by lia.
    set (k' := Z.to_nat (eval_batches args - (n + 1))).
    cbn [take attempt_mapM].
    destruct (eval_graph (features b)) as [e|pred]; [done|].
    cbn [mbind attempt_mbind]. rewrite IH by lia. fold k'.
    destruct (attempt_mapM _ (take k' bs)) as [e|new_preds]; [done|].
    cbn [mbind attempt_mbind mret attempt_mret]. simpl length.
    destruct (decide (k' < length bs)%nat).
    + rewrite decide_True by lia. simpl. by rewrite <-!(assoc_L (++)).
    + rewrite decide_False by lia. destruct final; [|done].
      simpl. by rewrite <-!(assoc_L (++)).
Qed.

Lemma eval_spec (nvidia_smi : string) (args : Args) (rank : Z) (bs : list (batch A))
    (final : ending) :
  0 < eval_batches args →
  (eval_batches args < len bs ∨ final = Exhausted) →
  let used := take (Z.to_nat (eval_batches args)) bs in
  eval eval_graph roc_auc_score nvidia_smi args rank
    (inr {| loader_batches := bs; loader_ending := final |})
  = (preds ← attempt_mapM (λ b, eval_graph (features b)) used;
     if decide (rank = 0)
     then labels ← np_concatenate_axis0 (label <$> used);
          preds ← np_concatenate_axis0 preds;
          auc ← roc_auc_score labels preds;
          device_mem_str ← of_result (getitem (split_newline nvidia_smi) (rank + 1));
          mret (EvalScore auc)
     else mret EvalZero).
Proof.
  intros Heb Hloader used. unfold eval. rewrite decide_False by lia.
  cbn [mbind attempt_mbind loader_batches loader_ending].
  rewrite eval_loop_spec by lia. rewrite Z.sub_0_r. fold used.
  destruct (attempt_mapM _ used) as [e|preds]; [done|].
  cbn [mbind attempt_mbind].
  destruct (decide (Z.to_nat (eval_batches args) < length bs)%nat) as [Hlt|Hge]; [done|].
  destruct Hloader as [Hlt| ->]; [unfold len in Hlt; lia|].
  unfold used. rewrite take_ge by lia. done.
Qed.

(** X15. The evaluation uses the first [eval_batches] batches of the loader
    and no more. When [eval_batches] is positive and the loader has a batch,
    and either has more than [eval_batches] batches or ends by exhaustion,
    [eval] calls [eval_graph] on the features of its first [eval_batches]
    batches (all of them when it has fewer), in order. When one of these
    calls raises, the evaluation raises that exception, on every process.
    Otherwise a process of another rank than 0 returns 0, and the process of
    rank 0 computes [roc_auc_score] of the labels and of the predictions of
    these batches, joined in order, and then reads the second line of the
    output of [nvidia-smi]: it raises [IndexError] when there is none and
    returns the score when there is one. What the loader does after these
    batches, a failure included, has no effect. *)
Theorem eval_scores_first_batches (nvidia_smi : string) (args : Args) (rank : Z)
    (bs : list (batch A)) (final : ending) :
  0 < eval_batches args → bs ≠ [] →
  (eval_batches args < len bs ∨ final = Exhausted) →
  let used := take (Z.to_nat (eval_batches args)) bs in
  eval eval_graph roc_auc_score nvidia_smi args rank
    (inr {| loader_batches := bs; loader_ending := final |})
  = (preds ← attempt_mapM (λ b, eval_graph (features b)) used;
     if decide (rank = 0)
     then auc ← roc_auc_score (concat (label <$> used)) (concat preds);
          device_mem_str ← of_result (getitem (split_newline nvidia_smi) 1);
          mret (EvalScore auc)
     else mret EvalZero).
Proof.
  intros Heb Hne Hloader used. rewrite eval_spec by done. fold used.
  destruct (attempt_mapM _ used) as [e|preds] eqn:Hpreds; [done|].
  cbn [mbind attempt_mbind].
  case_decide as Hrank; [|done]. subst rank.
  assert (used ≠ []) as Hused.
  { unfold used. destruct bs; [done|].
    destruct (Z.to_nat (eval_batches args)) eqn:Hk; [lia|done]. }
  apply attempt_mapM_length in Hpreds.
  destruct used; [done|]. destruct preds; [done|]. done.
Qed.

(** X17. A loader without batches. When [eval_batches] is positive and the
    loader is exhausted at once, the process of rank 0 raises [ValueError]
    (there is nothing to concatenate) where every other process returns 0. *)
Theorem eval_without_batches (nvidia_smi : string) (args : Args) (rank : Z) :
  0 < eval_batches args →
  eval eval_graph roc_auc_score nvidia_smi args rank
    (inr {| loader_batches := []; loader_ending := Exhausted |})
  = if decide (rank = 0)
    then inl (Exn (ValueError "need at least one array to concatenate"))
    else inr EvalZero.
Proof.
  intros Heb. rewrite eval_spec; [|done|by right]. rewrite take_nil. cbn.
  by case_decide.
Qed.

End eval_properties.

Section eval_module_properties.
Context {A Q AUC X T : Type}.
Variable embedding_layer : ndarray2 A → attempt (list X).
Variable flow_cat : list X → attempt T.
Variable flow_mul : T → T → attempt T.
Variable flow_sum : T → attempt T.
Variable flow_flatten : T → attempt T.
Variable roc_auc_score : list A → list Q → attempt AUC.
Local Open Scope list_scope.
Local Open Scope Z_scope.

(** X16. The evaluation of the module never gives a score. With the graph
    that [train] builds from [PNNModule] as [eval_graph], a positive
    [eval_batches] and a loader that has a batch, [eval] raises on every
    process, at its first call of the graph: the exception is the one of
    the forward pass on the features of the first batch, which is
    [AttributeError] for [fm_layer] whenever the calls of the framework
    before line 561 return. The metric is not computed, whatever the other
    batches, the end of the loader and the output of [nvidia-smi]. *)
Theorem eval_raises_in_forward_pass (nvidia_smi : string) (args : Args) (rank : Z)
    (b : batch A) (bs : list (batch A)) (final : ending) :
  0 < eval_batches args →
  ∃ e,
    eval (PNNValGraph_build embedding_layer flow_cat flow_mul flow_sum flow_flatten)
      roc_auc_score nvidia_smi args rank
      (inr {| loader_batches := b :: bs; loader_ending := final |})
    = inl e ∧
    ∀ embedded_x inner_product,
      embedding_layer (features b) = inr embedded_x →
      (InnerProductLayer_forward flow_cat flow_mul flow_sum true embedded_x
         ≫= flow_flatten) = inr inner_product →
      e = AttributeError "fm_layer".
Proof.
  intros Heb.
  destruct (PNNModule_forward_raises (Y := list Q) embedding_layer flow_cat flow_mul
              flow_sum flow_flatten (features b)) as (e & Hforward & He).
  exists e. split; [|done].
  unfold eval. rewrite decide_False by lia.
  cbn [mbind attempt_mbind loader_batches loader_ending eval_loop].
  rewrite decide_False by lia. unfold PNNValGraph_build. by rewrite Hforward.
Qed.

End eval_module_properties.

Lemma eval_scores_first_batches_witness :
  eval example_eval_graph example_roc_auc_score example_nvidia_smi
    (example_args 5 2 2 false) 0
    (inr (example_loader 3 (Failed (ValueError "need at least one array to stack"))))
  = inr (EvalScore 4%Z).
Proof.
  apply (eval_scores_first_batches example_eval_graph example_roc_auc_score
           example_nvidia_smi (example_args 5 2 2 false) 0
           (loader_batches (example_loader 3 Exhausted))
           (Failed (ValueError "need at least one array to stack"))).
  - reflexivity.
  - discriminate.
  - left. reflexivity.
Defined.

Lemma eval_without_batches_witness :
  eval example_eval_graph example_roc_auc_score example_nvidia_smi
    (example_args 5 2 2 false) 0 (inr (example_loader 0 Exhausted))
  = inl (Exn (ValueError "need at least one array to concatenate")).
Proof.
  apply (eval_without_batches example_eval_graph example_roc_auc_score
           example_nvidia_smi (example_args 5 2 2 false) 0).
  reflexivity.
Defined.

Lemma eval_raises_in_forward_pass_witness :
  ∃ e,
    eval (PNNValGraph_build example_embedding_layer example_flow_cat example_flow_mul
            example_flow_sum example_flow_flatten)
      example_roc_auc_score example_nvidia_smi (example_args 5 2 2 false) 1
      (inr (example_loader 3 Exhausted))
    = inl e ∧
    ∀ embedded_x inner_product,
      example_embedding_layer (features (example_batch 0)) = inr embedded_x →
      (InnerProductLayer_forward example_flow_cat example_flow_mul example_flow_sum true
         embedded_x ≫= example_flow_flatten) = inr inner_product →
      e = AttributeError "fm_layer".
Proof.
  apply (eval_raises_in_forward_pass example_embedding_layer example_flow_cat
           example_flow_mul example_flow_sum example_flow_flatten example_roc_auc_score
           example_nvidia_smi (example_args 5 2 2 false) 1 (example_batch 0)
           (drop 1 (loader_batches (example_loader 3 Exhausted))) Exhausted).
  reflexivity.
Defined.

(** * The training loop *)

Section train_properties.
Context {A AUC X T Y L : Type}.
Variable embedding_layer : ndarray2 A → attempt (list X).
Variable flow_cat : list X → attempt T.
Variable flow_mul : T → T → attempt T.
Variable flow_sum : T → attempt T.
Variable flow_flatten : T → attempt T.
Variable loss_backward : Y → list A → attempt L.
Implicit Types (args : Args) (eval_at : Z → attempt (eval_result AUC)).
Implicit Types (evs : list (train_event A)) (bs : list (batch A)).
Local Open Scope list_scope.
Local Open Scope Z_scope.

Lemma training_bind_ok {X' Y' : Type} evs (x : X') (f : X' → training A Y') :
  ((evs, inr x) ≫= f) = (evs ++ (f x).1, (f x).2).
Proof. unfold mbind, training_mbind. by destruct (f x). Qed.

Lemma training_bind_raise {X' Y' : Type} evs (e : exception) (f : X' → training A Y') :
  ((evs, inl e) ≫= f) = (evs, inl e).
Proof. done. Qed.

Lemma try_bind {X' Y' : Type} (x : X') (f : X' → training A Y') :
  (try (inr x) ≫= f) = f x.
Proof. unfold try. rewrite training_bind_ok. by destruct (f x). Qed.

Lemma training_ret_bind {X' Y' : Type} (x : X') (f : X' → training A Y') :
  (mret x ≫= f) = f x.
Proof. exact (try_bind x f). Qed.

Lemma evaluate_ok args eval_at (step : Z) :
  evaluation_goes_well args eval_at step →
  evaluate (A:=A) args eval_at step = ([Eval step], inr ()).
Proof. intros [Hsave [r Hr]]. unfold evaluate. by rewrite Hsave, Hr. Qed.

Lemma evaluate_save_model args eval_at (step : Z) r :
  save_model_after_each_eval args = true → eval_at step = inr r →
  evaluate (A:=A) args eval_at step = ([Eval step], inl (NameError "save_model")).
Proof. intros Hsave Hr. unfold evaluate. by rewrite Hsave, Hr. Qed.

(** The evaluation after the loop. *)
Lemma evaluation_after_loop args (step : Z) (what : Z → training A ()) :
  (if decide (eval_interval args > 0)
   then r ← try (py_mod step (eval_interval args));
        if decide (r ≠ 0) then what step else mret ()
   else mret ())
  = if decide (eval_interval args > 0 ∧ step `mod` eval_interval args ≠ 0)
    then what step else mret ().
Proof.
  unfold py_mod. destruct (decide (eval_interval args > 0)) as [Hei|Hei].
  - rewrite (decide_False (P := eval_interval args = 0)) by lia. rewrite try_bind.
    destruct (decide (step `mod` eval_interval args ≠ 0)).
    + by rewrite decide_True.
    + rewrite decide_False; [done|tauto].
  - rewrite decide_False; [done|tauto].
Qed.

Lemma train_unfold args (rank : Z) eval_at (loader : Loader A) :
  train embedding_layer flow_cat flow_mul flow_sum flow_flatten loss_backward
    args rank eval_at (inr loader)
  = ('(step, _, _) ← train_loop embedding_layer flow_cat flow_mul flow_sum flow_flatten
                       loss_backward args rank eval_at
                       (seqZ 1 (Z.of_nat (Z.to_nat (train_batches args)))) (-1) 0 loader;
     if decide (eval_interval args > 0 ∧ step `mod` eval_interval args ≠ 0)
     then evaluate args eval_at step else mret ()).
Proof.
  unfold train. rewrite try_bind. unfold py_range.
  replace (train_batches args + 1 - 1) with (train_batches args) by lia.
  replace (seqZ 1 (Z.of_nat (Z.to_nat (train_batches args))))
    with (seqZ 1 (train_batches args)).
  2:{ unfold seqZ. by rewrite Nat2Z.id. }
  destruct (train_loop _ _ _ _ _ _ _ _ _ _ _ _ _) as [evs [e|[[step ls] loader']]]; [done|].
  rewrite !training_bind_ok. cbv beta iota.
  by rewrite (evaluation_after_loop args step (evaluate (A:=A) args eval_at)).
Qed.

Lemma train_loop_cons args (rank : Z) eval_at (s : Z) (steps : list Z) (step last_step : Z)
    (loader : Loader A) :
  train_loop embedding_layer flow_cat flow_mul flow_sum flow_flatten loss_backward
    args rank eval_at (s :: steps) step last_step loader
  = ('(last_step, loader) ← train_step embedding_layer flow_cat flow_mul flow_sum
                              flow_flatten loss_backward args rank eval_at s last_step loader;
     train_loop embedding_layer flow_cat flow_mul flow_sum flow_flatten loss_backward
       args rank eval_at steps s last_step loader).
Proof. reflexivity. Qed.

(** A step for which the loader has no batch. *)
Lemma train_step_empty args (rank : Z) eval_at (step last_step : Z) (final : ending) :
  train_step embedding_layer flow_cat flow_mul flow_sum flow_flatten loss_backward
    args rank eval_at step last_step
    {| loader_batches := ([] : list (batch A)); loader_ending := final |}
  = ([], inl (ending_exception final)).
Proof. unfold train_step, next. by destruct final. Qed.

(** A step for which the loader has a batch: the call of [train_graph]
    raises. *)
Lemma train_step_raises args (rank : Z) eval_at (step last_step : Z) (b : batch A) bs
    (final : ending) (e : exception) :
  PNNModule_forward (Y := Y) embedding_layer flow_cat flow_mul flow_sum flow_flatten
    (features b) = inl e →
  train_step embedding_layer flow_cat flow_mul flow_sum flow_flatten loss_backward
    args rank eval_at step last_step {| loader_batches := b :: bs; loader_ending := final |}
  = ([TrainGraph step b], inl e).
Proof.
  intros Hforward. unfold train_step, next, train_graph, PNNTrainGraph_build.
  cbn [loader_batches loader_ending]. rewrite try_bind. cbv beta iota.
  by rewrite Hforward.
Qed.

(** A training of one step or more stops in its first step. *)
Lemma train_first_step args (rank : Z) eval_at bs (final : ending) :
  0 < train_batches args →
  match bs with
  | [] =>
      train embedding_layer flow_cat flow_mul flow_sum flow_flatten loss_backward
        args rank eval_at (inr {| loader_batches := bs; loader_ending := final |})
      = ([], inl (ending_exception final))
  | b :: _ =>
      ∃ e,
        train embedding_layer flow_cat flow_mul flow_sum flow_flatten loss_backward
          args rank eval_at (inr {| loader_batches := bs; loader_ending := final |})
        = ([TrainGraph 1 b], inl e) ∧
        ∀ embedded_x inner_product,
          embedding_layer (features b) = inr embedded_x →
          (InnerProductLayer_forward flow_cat flow_mul flow_sum true embedded_x
             ≫= flow_flatten) = inr inner_product →
          e = AttributeError "fm_layer"
  end.
Proof.
  intros Hsteps.
  assert (seqZ 1 (Z.of_nat (Z.to_nat (train_batches args)))
          = 1 :: seqZ 2 (train_batches args - 1)) as Hseq.
  { rewrite seqZ_cons by lia. do 2 f_equal. lia. }
  destruct bs as [|b bs].
  - by rewrite train_unfold, Hseq, train_loop_cons, train_step_empty.
  - destruct (PNNModule_forward_raises (Y := Y) embedding_layer flow_cat flow_mul
                flow_sum flow_flatten (features b)) as (e & Hforward & He).
    exists e. split; [|done].
    by rewrite train_unfold, Hseq, train_loop_cons, (train_step_raises _ _ _ _ _ _ _ _ e).
Qed.






End train_properties.





